(** * Auditory toolbox (PyTorch port): filterbank and correlogram pipeline

    A shallow embedding of [auditory_toolbox_torch.py]: the ERB frequency
    scale, the gammatone coefficient designer, the second-order-section
    assembler, the filterbank executor, the correlogram frame and array
    builders and the pitch/salience extractor.

    Numbers.  The program computes on float64 tensors.  Rounding, infinities
    and NaN are not modelled: a float is read as the exact number it stands
    for.  Code that only adds, subtracts, multiplies, divides and compares
    (the recursive filter, the assembler, the pitch extractor) is embedded
    over an arithmetic interface [Num] and run on the rationals [Q], where
    it evaluates; code that needs [exp], [log], [cos], [sin] or [sqrt]
    (the ERB scale, the coefficient designer, the correlogram frame) is
    embedded over the reals [R].

    Tensors.  A tensor is a nested list in row-major order; leading batch
    axes are flattened into one list.  Python exceptions are values of
    [exn], and a call that may raise returns a [result]. *)

From Stdlib Require Import Reals QArith Qround ZArith List Bool Lia Lra Psatz.
Import ListNotations.

Set Implicit Arguments.

(* ================================================================== *)
(** ** Python run-time: exceptions, integer conversion, slices *)

Inductive exn : Type :=
| TypeError
| ValueError
| ZeroDivisionError
| IndexError
| RuntimeError
| AssertionError.

Inductive result (A : Type) : Type :=
| Ok (a : A)
| Raise (e : exn).

Arguments Ok {A} a.
Arguments Raise {A} e.

Definition bind {A B : Type} (r : result A) (k : A -> result B) : result B :=
  match r with
  | Ok a => k a
  | Raise e => Raise e
  end.

Declare Scope result_scope.
Delimit Scope result_scope with result.
Notation "x <- c ;; k" := (bind c (fun x => k))
  (at level 61, c at next level, right associativity) : result_scope.
Notation "c ;;; k" := (bind c (fun _ => k))
  (at level 61, right associativity) : result_scope.
Open Scope result_scope.

(** [raise_if b e]: the statement [if b: raise e]. *)
Definition raise_if (b : bool) (e : exn) : result unit :=
  if b then Raise e else Ok tt.

(** [py_assert b]: the statement [assert b]. *)
Definition py_assert (b : bool) : result unit :=
  if b then Ok tt else Raise AssertionError.

Definition is_ok {A : Type} (r : result A) : bool :=
  match r with Ok _ => true | Raise _ => false end.

(** [mapM f l]: run [f] on every element in order, stopping at the first
    exception (a Python [for] loop that appends each result). *)
Fixpoint mapM {A B : Type} (f : A -> result B) (l : list A) : result (list B) :=
  match l with
  | [] => Ok []
  | a :: l' => b <- f a ;; bs <- mapM f l' ;; Ok (b :: bs)
  end.

(** [int(q)] on a float: truncation toward zero. *)
Definition py_int (q : Q) : Z := Z.quot (Qnum q) (Z.pos (Qden q)).

(** [range(n)]: empty when [n <= 0]. *)
Definition py_range (n : Z) : list Z := map Z.of_nat (seq 0 (Z.to_nat n)).

(** A slice bound [i] on a sequence of length [n]: negative bounds count
    from the end, and every bound is clamped into [0..n]. *)
Definition slice_bound (n i : Z) : Z :=
  if (i <? 0)%Z then Z.max 0 (i + n) else Z.min i n.

(** The index range [lo', hi') selected by the slice [lo:hi]; an omitted
    bound is [None]. *)
Definition slice_range (n : nat) (lo hi : option Z) : nat * nat :=
  let zn := Z.of_nat n in
  let l := match lo with Some i => slice_bound zn i | None => 0%Z end in
  let h := match hi with Some i => slice_bound zn i | None => zn end in
  (Z.to_nat l, Z.to_nat h).

(** [l[lo:hi]]. *)
Definition py_slice {A : Type} (lo hi : option Z) (l : list A) : list A :=
  let '(a, b) := slice_range (length l) lo hi in
  firstn (b - a) (skipn a l).

Fixpoint fill_from {A : Type} (i : nat) (a b : nat) (z : A) (l : list A) : list A :=
  match l with
  | [] => []
  | x :: l' =>
      (if (a <=? i)%nat && (i <? b)%nat then z else x) :: fill_from (S i) a b z l'
  end.

(** [l[lo:hi] = z] for a scalar [z]: every selected position is overwritten. *)
Definition slice_fill {A : Type} (lo hi : option Z) (z : A) (l : list A) : list A :=
  let '(a, b) := slice_range (length l) lo hi in
  fill_from 0 a b z l.

(** [l[i]] with Python's negative indices; [IndexError] out of range. *)
Definition py_index {A : Type} (l : list A) (i : Z) : result A :=
  let n := Z.of_nat (length l) in
  let j := if (i <? 0)%Z then (i + n)%Z else i in
  if (j <? 0)%Z then Raise IndexError
  else match nth_error l (Z.to_nat j) with
       | Some x => Ok x
       | None => Raise IndexError
       end.

(* ================================================================== *)
(** ** Arithmetic interface *)

Class Num (A : Type) : Type := {
  nzero : A;
  nadd : A -> A -> A;
  nsub : A -> A -> A;
  nmul : A -> A -> A;
  ndiv : A -> A -> A
}.

#[global] Instance Num_Q : Num Q :=
  {| nzero := 0%Q; nadd := Qplus; nsub := Qminus; nmul := Qmult; ndiv := Qdiv |}.

#[global] Instance Num_R : Num R :=
  {| nzero := 0%R; nadd := Rplus; nsub := Rminus; nmul := Rmult; ndiv := Rdiv |}.

(* ================================================================== *)
(** ** The recursive linear filter primitive ([torchaudio.functional.lfilter])

    The primitive is an external collaborator of the toolbox.  It is
    embedded by the difference equation it realises, with zero initial
    conditions and [clamp=False]:
    [a0*y[i] = b0*x[i] + ... + bk*x[i-k] - a1*y[i-1] - ... - ak*y[i-k]]. *)

Section Filter.
Context {A : Type} `{Num A}.

(** Inner product of the taps [cs] with a history [hs] (newest first). *)
Fixpoint dot (cs hs : list A) : A :=
  match cs, hs with
  | [c], h :: _ => nmul c h
  | c :: cs', h :: hs' => nadd (nmul c h) (dot cs' hs')
  | _, _ => nzero
  end.

(** One pass over the samples; [xh] and [yh] hold the past inputs and
    outputs, newest first. *)
Fixpoint lfilter_loop (a b xs xh yh : list A) : list A :=
  match xs with
  | [] => []
  | x :: xs' =>
      let xh' := x :: xh in
      let y := ndiv (nsub (dot b xh') (dot (tl a) yh)) (hd nzero a) in
      y :: lfilter_loop a b xs' xh' (y :: yh)
  end.

(** [lfilter(waveform, a_coeffs, b_coeffs, clamp=False)] for one channel
    and one filter (1-D coefficient tensors of equal length). *)
Definition lfilter_channel (a b xs : list A) : list A :=
  let pad := repeat nzero (length a - 1) in
  lfilter_loop a b xs pad pad.

Definition lfilter (waveform a_coeffs b_coeffs : list A) : result (list A) :=
  raise_if (negb (length a_coeffs =? length b_coeffs)%nat) RuntimeError ;;;
  Ok (lfilter_channel a_coeffs b_coeffs waveform).

Fixpoint zip_filters (ws a_coeffs b_coeffs : list (list A)) : result (list (list A)) :=
  match ws, a_coeffs, b_coeffs with
  | [], [], [] => Ok []
  | w :: ws', a :: as', b :: bs' =>
      y <- lfilter w a b ;;
      ys <- zip_filters ws' as' bs' ;;
      Ok (y :: ys)
  | _, _, _ => Raise RuntimeError
  end.

(** [lfilter(waveform, a_coeffs, b_coeffs, clamp=False, batching=True)]
    with 2-D coefficients of shape (filters, taps) and a waveform of shape
    (batch, filters, time): filter [c] runs on channel [c] of every batch
    element.  The primitive rejects mismatched shapes. *)
Definition lfilter_batching (waveform : list (list (list A)))
           (a_coeffs b_coeffs : list (list A)) : result (list (list (list A))) :=
  mapM (fun ws => zip_filters ws a_coeffs b_coeffs) waveform.

(** The biquad difference equation, written out for one stage with
    numerator [n0 n1 n2] and denominator [d0 d1 d2]: the output at sample
    [i] depends on the current and two prior inputs [x x1 x2] and on the
    stage's own two prior outputs [y1 y2]. *)
Fixpoint biquad_run (n0 n1 n2 d0 d1 d2 x1 x2 y1 y2 : A) (xs : list A) : list A :=
  match xs with
  | [] => []
  | x :: xs' =>
      let y := ndiv (nsub (nadd (nmul n0 x) (nadd (nmul n1 x1) (nmul n2 x2)))
                          (nadd (nmul d1 y1) (nmul d2 y2))) d0 in
      y :: biquad_run n0 n1 n2 d0 d1 d2 x x1 y y1 xs'
  end.

Definition biquad (num den : A * A * A) (xs : list A) : list A :=
  let '(n0, n1, n2) := num in
  let '(d0, d1, d2) := den in
  biquad_run n0 n1 n2 d0 d1 d2 nzero nzero nzero nzero xs.

End Filter.

(* ================================================================== *)
(** ** Real and complex helpers *)

Definition Rleb (x y : R) : bool := if Rle_dec x y then true else false.
Definition Rltb (x y : R) : bool := if Rlt_dec x y then true else false.

(** [math.log(x)]: [ValueError] (math domain error) unless [0 < x]. *)
Definition py_log (x : R) : result R :=
  if Rle_dec x 0 then Raise ValueError else Ok (ln x).

(** [x / y] on Python floats: [ZeroDivisionError] when [y = 0]. *)
Definition py_div (x y : R) : result R :=
  if Req_dec_T y 0 then Raise ZeroDivisionError else Ok (x / y)%R.

(** [torch.arange(lo, hi)]: the integers [lo, lo+1, ..., hi-1]; the bounds
    must not be inverted. *)
Definition arange (lo hi : Z) : result (list Z) :=
  if (hi <? lo)%Z then Raise RuntimeError
  else Ok (map (fun i => (lo + Z.of_nat i)%Z) (seq 0 (Z.to_nat (hi - lo)))).

Definition C : Type := (R * R)%type.
Definition Cre (z : C) : R := fst z.
Definition Cim (z : C) : R := snd z.
Definition RtoC (x : R) : C := (x, 0%R).
Definition Cadd (z w : C) : C := (Cre z + Cre w, Cim z + Cim w)%R.
Definition Csub (z w : C) : C := (Cre z - Cre w, Cim z - Cim w)%R.
Definition Cmul (z w : C) : C :=
  (Cre z * Cre w - Cim z * Cim w, Cre z * Cim w + Cim z * Cre w)%R.
Definition Cscal (x : R) (z : C) : C := (x * Cre z, x * Cim z)%R.
Definition Cconj (z : C) : C := (Cre z, - Cim z)%R.
Definition Cnorm2 (z : C) : R := (Cre z * Cre z + Cim z * Cim z)%R.
Definition Cabs (z : C) : R := sqrt (Cnorm2 z).
Definition Cdiv (z w : C) : C := Cscal (/ Cnorm2 w) (Cmul z (Cconj w)).
(** [exp(x + i*y)]. *)
Definition Cexp (z : C) : C := (exp (Cre z) * cos (Cim z), exp (Cre z) * sin (Cim z))%R.
Definition Cpow4 (z : C) : C := Cmul (Cmul z z) (Cmul z z).
Definition Csum (l : list C) : C := fold_right Cadd (RtoC 0) l.

(* ================================================================== *)
(** ** ERB frequency scale: [erb_space] *)

Definition ear_q : R := 9.26449%R.
Definition min_bw : R := 24.7%R.

(** Entry [k] (1-based) of the ERB scale. *)
Definition erb_point (low_freq high_freq : R) (n : Z) (lh ll : R) (k : Z) : R :=
  (- (ear_q * min_bw)
   + exp (IZR k * (- lh + ll) / IZR n) * (high_freq + ear_q * min_bw))%R.

(** [erb_space(low_freq, high_freq, n)]: a column of [n] frequencies.  The
    body has no argument check: the only exceptions are those of
    [torch.arange] and [math.log], raised in evaluation order. *)
Definition erb_space (low_freq high_freq : R) (n : Z) : result (list R) :=
  ks <- arange 1 (1 + n) ;;
  lh <- py_log (high_freq + ear_q * min_bw) ;;
  ll <- py_log (low_freq + ear_q * min_bw) ;;
  Ok (map (erb_point low_freq high_freq n lh ll) ks).

(* ================================================================== *)
(** ** Gammatone coefficient designer: [make_erb_filters] *)

(** The [num_channels] argument: an [int], or a tensor of centre
    frequencies (a column, like the output of [erb_space]). *)
Inductive channels_arg (A : Type) : Type :=
| NumChannels (n : Z)
| CenterFrequencies (cf : list A).

Arguments NumChannels {A} n.
Arguments CenterFrequencies {A} cf.

Section Designer.
Variable t : R.

(** [order = 1], so both powers in the source are first powers. *)
Definition erb_bw (cf : R) : R := (((cf / ear_q) ^ 1 + min_bw ^ 1) ^ 1)%R.
Definition pole_b (cf : R) : R := (1.019 * 2 * PI * erb_bw cf)%R.

Definition sqrt_3_plus : R := sqrt (3 + Rpower 2 1.5).
Definition sqrt_3_minus : R := sqrt (3 - Rpower 2 1.5).

Definition a1_coef (s : R) (cf : R) : R :=
  (- (2 * t * cos (2 * cf * PI * t) / exp (pole_b cf * t)
      + s * t * sin (2 * cf * PI * t) / exp (pole_b cf * t)) / 2)%R.

Definition a11_coef (cf : R) : R := a1_coef (2 * sqrt_3_plus) cf.
Definition a12_coef (cf : R) : R := a1_coef (- (2 * sqrt_3_plus)) cf.
Definition a13_coef (cf : R) : R := a1_coef (2 * sqrt_3_minus) cf.
Definition a14_coef (cf : R) : R := a1_coef (- (2 * sqrt_3_minus)) cf.

(** One factor of the gain numerator:
    [-2*exp(4i*cf*pi*t)*t + 2*exp(-(b*t) + 2i*cf*pi*t)*t*(cos(..) + s*sin(..))]. *)
Definition gain_factor (s : R) (cf : R) : C :=
  Cadd (Cscal t (Cscal (-2) (Cexp (0, 4 * cf * PI * t))))%R
       (Cscal (cos (2 * cf * PI * t) + s * sin (2 * cf * PI * t))%R
          (Cscal t (Cscal 2 (Cexp (- (pole_b cf * t), 2 * cf * PI * t))))%R).

Definition gain_denominator (cf : R) : C :=
  Cadd (Csub (RtoC (-2 / exp (2 * pole_b cf * t)))
             (Cscal 2 (Cexp (0, 4 * cf * PI * t))))%R
       (Cscal (/ exp (pole_b cf * t))
          (Cscal 2 (Cadd (RtoC 1) (Cexp (0, 4 * cf * PI * t)))))%R.

Definition gain_coef (cf : R) : R :=
  Cabs (Cdiv (Cmul (Cmul (Cmul (gain_factor (- sqrt_3_minus) cf)
                               (gain_factor sqrt_3_minus cf))
                         (gain_factor (- sqrt_3_plus) cf))
                   (gain_factor sqrt_3_plus cf))
             (Cpow4 (gain_denominator cf))).

Definition b1_coef (cf : R) : R :=
  (-2 * cos (2 * cf * PI * t) / exp (pole_b cf * t))%R.
Definition b2_coef (cf : R) : R := exp (-2 * pole_b cf * t).

(** The list of ten coefficient columns, in the order
    [a0, a11, a12, a13, a14, a2, b0, b1, b2, gain]. *)
Definition designer_columns (cf : list R) : list (list R) :=
  [ map (fun _ => (t * 1)%R) cf;
    map a11_coef cf; map a12_coef cf; map a13_coef cf; map a14_coef cf;
    map (fun _ => (0 * 1)%R) cf;
    map (fun _ => (1 * 1)%R) cf;
    map b1_coef cf;
    map b2_coef cf;
    map gain_coef cf ].

End Designer.

(** [make_erb_filters(fs, num_channels, low_freq)].  No range check on
    [fs] or on the centre frequencies: [1/fs] raises for [fs = 0], and an
    integer channel count goes through [erb_space]. *)
Definition make_erb_filters (fs : R) (num_channels : channels_arg R)
           (low_freq : R) : result (list (list R)) :=
  t <- py_div 1 fs ;;
  cf <- match num_channels with
        | NumChannels n => erb_space low_freq (fs / 2) n
        | CenterFrequencies cf => Ok cf
        end ;;
  Ok (designer_columns t cf).

(* ================================================================== *)
(** ** Second-order-section assembler: [prepare_coefficients] *)

Section Assembler.
Context {A : Type} `{Num A}.

(** [u / v] on two columns of shapes (n,1) and (m,1), with broadcasting of
    a length-1 column; other length mismatches are rejected by torch. *)
Definition column_div (u v : list A) : result (list A) :=
  if (length u =? length v)%nat then Ok (map (fun p => ndiv (fst p) (snd p)) (combine u v))
  else match u, v with
       | [x], _ => Ok (map (fun y => ndiv x y) v)
       | _, [y] => Ok (map (fun x => ndiv x y) u)
       | _, _ => Raise RuntimeError
       end.

Definition same_lengths (n : nat) (cols : list (list A)) : bool :=
  forallb (fun c => (length c =? n)%nat) cols.

(** [torch.cat([c1, ..., ck], dim=1)] on columns of shape (n,1): a matrix of
    shape (n,k), given as its [n] rows.  All columns must have [n] rows. *)
Definition cat_columns (cols : list (list A)) : result (list (list A)) :=
  match cols with
  | [] => Raise RuntimeError
  | c :: _ =>
      if same_lengths (length c) cols
      then Ok (map (fun i => map (fun col => nth i col nzero) cols) (seq 0 (length c)))
      else Raise RuntimeError
  end.

(** [torch.cat([m1.unsqueeze(1), ..., mk.unsqueeze(1)], dim=1)] on matrices
    of shape (n,w): a tensor of shape (n,k,w).  All matrices must have [n]
    rows. *)
Definition cat_unsqueezed (ms : list (list (list A))) : result (list (list (list A))) :=
  match ms with
  | [] => Raise RuntimeError
  | m :: _ =>
      if forallb (fun m' => (length m' =? length m)%nat) ms
      then Ok (map (fun i => map (fun m' => nth i m' []) ms) (seq 0 (length m)))
      else Raise RuntimeError
  end.

(** The seven [assert] statements, in source order. *)
Definition channel_count_asserts (a0 a11 a12 a13 a14 b0 b1 gain : list A) : result unit :=
  let n_chan := length a0 in
  py_assert (n_chan =? length a11)%nat ;;;
  py_assert (n_chan =? length a12)%nat ;;;
  py_assert (n_chan =? length a13)%nat ;;;
  py_assert (n_chan =? length a14)%nat ;;;
  py_assert (n_chan =? length b0)%nat ;;;
  py_assert (n_chan =? length b1)%nat ;;;
  py_assert (n_chan =? length gain)%nat.

Definition sos_row (u v1 v2 v3 w gain : list A) : result (list (list A)) :=
  g <- column_div u gain ;;
  cat_columns [g; v1; v2; v3; w].

(** [prepare_coefficients(fcoefs)]: the tensor [sos] of shape
    (channels, 3, 5).  Unpacking a list that does not hold ten arrays is a
    [ValueError]. *)
Definition prepare_coefficients (fcoefs : list (list A)) : result (list (list (list A))) :=
  match fcoefs with
  | [a0; a11; a12; a13; a14; a2; b0; b1; b2; gain] =>
      channel_count_asserts a0 a11 a12 a13 a14 b0 b1 gain ;;;
      r0 <- sos_row a0 a0 a0 a0 b0 gain ;;
      r1 <- sos_row a11 a12 a13 a14 b1 gain ;;
      r2 <- sos_row a2 a2 a2 a2 b2 gain ;;
      cat_unsqueezed [r0; r1; r2]
  | _ => Raise ValueError
  end.

End Assembler.

(* ================================================================== *)
(** ** Filterbank executor: [ErbFilterBank] *)

Record ErbFilterBank (A : Type) : Type := {
  sampling_rate : A;
  num_channels : channels_arg A;
  lowest_frequency : A;
  fcoefs : list (list A);
  sos : list (list (list A))
}.

(** An input tensor: rank 1, or rank at least 2 with shape (..., time),
    the leading axes flattened into the list of rows. *)
Inductive signal (A : Type) : Type :=
| Signal1 (samples : list A)
| SignalN (time : nat) (rows : list (list A)).

Arguments Signal1 {A} samples.
Arguments SignalN {A} time rows.

(** [ErbFilterBank.__init__] with [dtype=None].  The range checks of the
    filterbank live here. *)
Definition ErbFilterBank_init (sampling_rate : R) (num_channels : channels_arg R)
           (lowest_frequency : R) : result (ErbFilterBank R) :=
  raise_if (Rleb sampling_rate 0) ValueError ;;;
  raise_if (Rleb lowest_frequency 0 || Rleb (sampling_rate / 2) lowest_frequency)
           ValueError ;;;
  fcoefs <- make_erb_filters sampling_rate num_channels lowest_frequency ;;
  sos <- prepare_coefficients fcoefs ;;
  Ok {| sampling_rate := sampling_rate; num_channels := num_channels;
        lowest_frequency := lowest_frequency; fcoefs := fcoefs; sos := sos |}.

Section Executor.
Context {A : Type} `{Num A}.

(** [sos[..., i]]: column [i] of every coefficient row, shape (channels, 3). *)
Definition last_axis (sos : list (list (list A))) (i : Z) : result (list (list A)) :=
  mapM (fun ch => mapM (fun row => py_index row i) ch) sos.

(** [x.unsqueeze(-2).tile(new_dims)]: every row repeated once per channel. *)
Definition tile_channels (n : Z) (rows : list (list A)) : result (list (list (list A))) :=
  if (n <? 0)%Z then Raise RuntimeError
  else Ok (map (fun row => repeat row (Z.to_nat n)) rows).

(** One pass of the loop body [y = lfilter(y, sos[..., -1], sos[..., j+1])]. *)
Definition forward_stage (sos : list (list (list A)))
           (y : result (list (list (list A)))) (j : Z) : result (list (list (list A))) :=
  y' <- y ;;
  a <- last_axis sos (-1) ;;
  b <- last_axis sos (j + 1) ;;
  lfilter_batching y' a b.

(** [ErbFilterBank.forward(x)]: output of shape (..., num_channels, time). *)
Definition forward (self : ErbFilterBank A) (x : signal A) : result (list (list (list A))) :=
  match x with
  | Signal1 _ => Raise TypeError
  | SignalN time rows =>
      raise_if (time <=? 1)%nat TypeError ;;;
      n <- match num_channels self with
           | NumChannels n => Ok n
           | CenterFrequencies _ => Raise TypeError
           end ;;
      tiled <- tile_channels n rows ;;
      a <- last_axis (sos self) (-1) ;;
      b <- last_axis (sos self) 0 ;;
      fold_left (forward_stage (sos self)) (py_range 3) (lfilter_batching tiled a b)
  end.

(** Four biquad stages in series, stage [k] feeding stage [k+1]. *)
Definition cascade4 (den n1 n2 n3 n4 : A * A * A) (xs : list A) : list A :=
  biquad n4 den (biquad n3 den (biquad n2 den (biquad n1 den xs))).

(** Three biquad stages in series. *)
Definition cascade3 (den n1 n2 n3 : A * A * A) (xs : list A) : list A :=
  biquad n3 den (biquad n2 den (biquad n1 den xs)).

End Executor.

Section CascadeView.
Context {A : Type} `{Num A}.

(** Channel [i] of the assembled tensor, read off the ten columns: three
    coefficient rows of five columns each. *)
Definition channel_sos (a0 a11 a12 a13 a14 a2 b0 b1 b2 gain : list A) (i : nat)
  : list (list A) :=
  let at_ (c : list A) := nth i c nzero in
  [ [ndiv (at_ a0) (at_ gain); at_ a0; at_ a0; at_ a0; at_ b0];
    [ndiv (at_ a11) (at_ gain); at_ a12; at_ a13; at_ a14; at_ b1];
    [ndiv (at_ a2) (at_ gain); at_ a2; at_ a2; at_ a2; at_ b2] ].

(** Channel [i] of the filterbank as a cascade: four biquad stages in
    series on the shared denominator [b0, b1, b2], the first numerator
    divided by the gain. *)
Definition channel_cascade (a0 a11 a12 a13 a14 a2 b0 b1 b2 gain : list A) (i : nat)
           (row : list A) : list A :=
  let at_ (c : list A) := nth i c nzero in
  cascade4 (at_ b0, at_ b1, at_ b2)
           (ndiv (at_ a0) (at_ gain), ndiv (at_ a11) (at_ gain), ndiv (at_ a2) (at_ gain))
           (at_ a0, at_ a12, at_ a2)
           (at_ a0, at_ a13, at_ a2)
           (at_ a0, at_ a14, at_ a2)
           row.

End CascadeView.

(** A one-channel bank whose four numerators are all [0, 0, 1] on the
    denominator [1, 0, 0]: every stage delays its input by two samples. *)
Definition delay_columns : list (list Q) :=
  [[0]; [0]; [0]; [0]; [0]; [1]; [1]; [0]; [0]; [1]]%Q.

Definition delay_bank : ErbFilterBank Q :=
  {| sampling_rate := 1%Q;
     num_channels := NumChannels 1;
     lowest_frequency := 1%Q;
     fcoefs := delay_columns;
     sos := [[[0 / 1; 0; 0; 0; 1]; [0 / 1; 0; 0; 0; 0]; [1 / 1; 1; 1; 1; 0]]]%Q |}.

(** A unit impulse of nine samples, as a batch of one row. *)
Definition impulse9 : list Q := [1; 0; 0; 0; 0; 0; 0; 0; 0]%Q.

(** Ten columns in which [a2] and [b2] hold two channels and the other
    eight hold one. *)
Definition mismatched_columns : list (list Q) :=
  [[1]; [1]; [1]; [1]; [1]; [0; 0]; [1]; [1]; [1; 1]; [1]]%Q.

(* ================================================================== *)
(** ** Discrete Fourier transform ([torch.fft.fft], [torch.fft.ifft])

    The transform is an external primitive; it is embedded by its defining
    sum, with the default normalisation (none forward, [1/N] backward). *)

Definition cis (x : R) : C := (cos x, sin x).

Definition dft (sign : R) (f : list C) : list C :=
  let N := length f in
  map (fun k =>
         Csum (map (fun n => Cmul (nth n f (RtoC 0))
                                  (cis (sign * (2 * PI * INR k * INR n / INR N))%R))
                   (seq 0 N)))
      (seq 0 N).

Definition fft (f : list C) : list C := dft (-1) f.
Definition ifft (F : list C) : list C := map (Cscal (/ INR (length F))) (dft 1 F).

(* ================================================================== *)
(** ** Correlogram frame builder: [correlogram_frame] *)

(** Length of [l[lo:hi]] for a sequence of length [n]. *)
Definition slice_len (n : nat) (lo hi : option Z) : nat :=
  let '(a, b) := slice_range n lo hi in (Nat.min b n - a)%nat.

(** Two sizes along one axis broadcast together when they are equal or one
    of them is 1. *)
Definition broadcast_len (m n : nat) : result nat :=
  if (m =? n)%nat then Ok m
  else if (m =? 1)%nat then Ok n
  else if (n =? 1)%nat then Ok m
  else Raise RuntimeError.

(** A value of size [src] can be assigned to a slice of size [dst] when the
    sizes agree or the value has size 1. *)
Definition assignable (src dst : nat) : bool := (src =? dst)%nat || (src =? 1)%nat.

(** Everything in the frame builder that depends on shapes only. *)
Record frame_shape : Type := {
  fs_win_len : Z;
  fs_fft_size : Z;
  fs_start : Z;
  fs_last : Z;
  fs_pic_width : Z
}.

(** The shape-level run of [correlogram_frame]: the values of the integer
    variables, and every place where the call can raise.  In source order:
    [math.log2] of a non-positive number, [math.pi/win_len] with
    [win_len = 0], [torch.arange] of a negative length, the element-wise
    product and the slice assignment into [f], and the indexing
    [pic[..., 0]], [pic[..., 1]], [pic[..., 2]]. *)
Definition frame_checks (data_len : nat) (pic_width start win_len : Z) : result frame_shape :=
  let win_len := if (win_len =? 0)%Z then Z.of_nat data_len else win_len in
  let m := (2 * Z.max pic_width win_len)%Z in
  raise_if (m <=? 0)%Z ValueError ;;;
  let fft_size := (2 ^ Z.log2_up m)%Z in
  let start := Z.max 0 start in
  let last := Z.min (Z.of_nat data_len) (start + win_len) in
  raise_if (win_len =? 0)%Z ZeroDivisionError ;;;
  raise_if (win_len <? 0)%Z RuntimeError ;;;
  let seg_len := slice_len data_len (Some start) (Some last) in
  let ws_len := slice_len (Z.to_nat win_len) None (Some (last - start)%Z) in
  let dst_len := slice_len (Z.to_nat fft_size) None (Some (last - start)%Z) in
  prod_len <- broadcast_len seg_len ws_len ;;
  raise_if (negb (assignable prod_len dst_len)) RuntimeError ;;;
  let pic_len := slice_len (Z.to_nat fft_size) None (Some pic_width) in
  raise_if (pic_len <? 3)%nat IndexError ;;;
  Ok {| fs_win_len := win_len; fs_fft_size := fft_size; fs_start := start;
        fs_last := last; fs_pic_width := pic_width |}.

(** Entry [k] of the window [ws]. *)
Definition window_point (win_len : Z) (k : Z) : R :=
  let a := 0.54%R in
  let b := (-0.46)%R in
  let wr := sqrt (64 / 256) in
  let phi := (PI / IZR win_len)%R in
  (2 * wr / sqrt (4 * a * a + 2 * b * b)
   * (a + b * cos (2 * PI * IZR k / IZR win_len + phi)))%R.

Definition window (win_len : Z) : list R :=
  map (fun k => window_point win_len (Z.of_nat k)) (seq 0 (Z.to_nat win_len)).

(** One row of [f] before the transform: the windowed segment followed by
    zeros up to [fft_size]. *)
Definition padded_segment (sh : frame_shape) (row : list R) : list R :=
  let seg := py_slice (Some (fs_start sh)) (Some (fs_last sh)) row in
  let w := py_slice None (Some (fs_last sh - fs_start sh)%Z) (window (fs_win_len sh)) in
  let prod := map (fun p => (fst p * snd p)%R) (combine seg w) in
  prod ++ skipn (length prod) (repeat 0%R (Z.to_nat (fs_fft_size sh))).

(** [ifft(fft(f) * conj(fft(f)))] for one row. *)
Definition autocorrelation (f : list R) : list C :=
  let F := fft (map RtoC f) in
  ifft (map (fun z => Cmul z (Cconj z)) F).

(** One row of [pic] before normalisation:
    [torch.maximum(0, real(f[..., :pic_width]))]. *)
Definition clipped_autocorrelation (sh : frame_shape) (row : list R) : list R :=
  map (fun z => Rmax 0 (Cre z))
      (py_slice None (Some (fs_pic_width sh)) (autocorrelation (padded_segment sh row))).

(** The three-point test behind [good_rows]. *)
Definition good_row (pic : list R) : bool :=
  Rltb 0 (nth 0 pic 0%R)
  && (Rltb (nth 1 pic 0%R) (nth 0 pic 0%R) && Rltb (nth 2 pic 0%R) (nth 0 pic 0%R)).

(** One row of [norm_factor]: [1/sqrt(pic[0])] on a good row, zero on the
    others. *)
Definition norm_factor (pic : list R) : R :=
  if good_row pic then (1 / sqrt (nth 0 pic 0%R))%R else 0%R.

(** [pic * norm_factor] on one row. *)
Definition normalize_row (pic : list R) : list R :=
  map (fun v => (v * norm_factor pic)%R) pic.

(** [correlogram_frame(data, pic_width, start, win_len)] on data of shape
    (..., num_channel, time), given by its time length and its rows. *)
Definition correlogram_frame (data_len : nat) (rows : list (list R))
           (pic_width start win_len : Z) : result (list (list R)) :=
  sh <- frame_checks data_len pic_width start win_len ;;
  Ok (map (fun row => normalize_row (clipped_autocorrelation sh row)) rows).

(* ================================================================== *)
(** ** Correlogram array builder: [correlogram_array] *)

(** [correlogram_array(data, sampling_rate, frame_rate, width)].  The
    result lists the frames along the frame axis; concatenating an empty
    list of frames makes [torch.cat] raise.  For 2-D data the source first
    inserts a singleton axis, which leaves the rows unchanged. *)
Definition correlogram_array (data_len : nat) (rows : list (list R))
           (sampling_rate : Q) (frame_rate width : Z) : result (list (list (list R))) :=
  raise_if (frame_rate =? 0)%Z ZeroDivisionError ;;;
  let frame_increment := py_int (sampling_rate / inject_Z frame_rate)%Q in
  raise_if (frame_increment =? 0)%Z ZeroDivisionError ;;;
  let frame_count := (Z.quot (Z.of_nat data_len - width) frame_increment + 1)%Z in
  movie <- mapM (fun i => correlogram_frame data_len rows width
                                            (i * frame_increment)%Z
                                            (frame_increment * 4)%Z)
                (py_range frame_count) ;;
  raise_if (match movie with [] => true | _ => false end) RuntimeError ;;;
  Ok movie.

(* ================================================================== *)
(** ** Pitch/salience extractor: [correlogram_pitch] *)

Definition Qltb (x y : Q) : bool := negb (Qle_bool y x).

(** [torch.sum(frame, axis=0)] for a frame of shape (channels, num_times):
    entry [t] is the sum over the channels of their lag-[t] values. *)
Definition channel_sum (num_times : nat) (frame : list (list Q)) : list Q :=
  map (fun t => fold_right Qplus 0%Q (map (fun ch => nth t ch 0%Q) frame))
      (seq 0 num_times).

(** [u - v] on two 1-D tensors, with broadcasting of a length-1 operand. *)
Definition tensor_sub (u v : list Q) : result (list Q) :=
  n <- broadcast_len (length u) (length v) ;;
  Ok (if (length u =? length v)%nat
      then map (fun p => (fst p - snd p)%Q) (combine u v)
      else if (length u =? 1)%nat
           then map (fun y => (hd 0%Q u - y)%Q) v
           else map (fun x => (x - hd 0%Q v)%Q) u).

Fixpoint argwhere_from (i : nat) (l : list Q) : list nat :=
  match l with
  | [] => []
  | x :: l' => if Qltb 0 x then i :: argwhere_from (S i) l' else argwhere_from (S i) l'
  end.

(** [torch.argwhere(l > 0)], as the list of the indices found. *)
Definition argwhere_positive (l : list Q) : list nat := argwhere_from 0 l.

Fixpoint argmax_from (best_i : nat) (best : Q) (i : nat) (l : list Q) : nat :=
  match l with
  | [] => best_i
  | x :: l' =>
      if Qltb best x then argmax_from i x (S i) l'
      else argmax_from best_i best (S i) l'
  end.

(** [torch.argmax(l)]: the index of the first maximal value. *)
Definition argmax (l : list Q) : nat :=
  match l with
  | [] => 0%nat
  | x :: l' => argmax_from 0 x 1 l'
  end.

Definition window_length : nat := 16.

(** The valley search: smooth the summary with the 16-tap moving sum, take
    the first difference over [1:width] and [:width-1], zero its first 16
    entries, and return the first index where it is positive
    ([valleys[0, 0]], an [IndexError] when there is none). *)
Definition first_valley (width : Z) (summary : list Q) : result nat :=
  let b_coefs := repeat 1%Q window_length in
  let a_coefs := 1%Q :: repeat 0%Q (window_length - 1) in
  sumfilt <- lfilter summary a_coefs b_coefs ;;
  sumdif <- tensor_sub (py_slice (Some 1%Z) (Some width) sumfilt)
                       (py_slice None (Some (width - 1)%Z) sumfilt) ;;
  let sumdif := slice_fill None (Some (Z.of_nat window_length)) 0%Q sumdif in
  py_index (argwhere_positive sumdif) 0.

(** The body of the loop over the frames. *)
Definition pitch_frame (num_times : nat) (width : Z) (sr : Q) (drop_low drop_high : Z)
           (frame : list (list Q)) : result (Q * Q) :=
  let summary := channel_sum num_times frame in
  zero_lag <- py_index (channel_sum num_times frame) 0 ;;
  valley <- first_valley width summary ;;
  let summary := slice_fill None (Some (Z.of_nat valley)) 0%Q summary in
  let summary := slice_fill (Some 1%Z) (Some drop_low) 0%Q summary in
  let summary := slice_fill (Some drop_high) None 0%Q summary in
  let p := argmax summary in
  let pitch := if (0 <? p)%nat then (sr / inject_Z (Z.of_nat p))%Q else 0%Q in
  Ok (pitch, (nth p summary 0%Q / zero_lag)%Q).

(** [correlogram_pitch(correlogram, width, sr, low_pitch, high_pitch)] on
    a rank-3 tensor of shape (frames, channels, num_times), given by its
    last dimension and its frames.  Returns the pitch and the salience of
    every frame. *)
Definition correlogram_pitch (num_times : nat) (frames : list (list (list Q)))
           (width : Z) (sr low_pitch high_pitch : Q) : result (list Q * list Q) :=
  raise_if (Qeq_bool high_pitch 0) ZeroDivisionError ;;;
  let drop_low := py_int (sr / high_pitch)%Q in
  let drop_high :=
    if Qltb 0 low_pitch then Z.min width (Qceiling (sr / low_pitch)%Q) else width in
  estimates <- mapM (pitch_frame num_times width sr drop_low drop_high) frames ;;
  Ok (map fst estimates, map snd estimates).



(** A frame as the frame builder returns them: every channel has
    [num_times] lags, every value is non-negative, and no lag exceeds the
    channel's lag-0 value. *)
Definition valid_frame (num_times : nat) (frame : list (list Q)) : Prop :=
  Forall (fun ch => length ch = num_times
                    /\ forall t, (0 <= nth t ch 0 /\ nth t ch 0 <= nth 0 ch 0)%Q) frame.

(** A silent movie: one frame of two channels, all zero, 256 lags. *)
Definition silent_movie : list (list (list Q)) :=
  [[repeat 0%Q 256; repeat 0%Q 256]].

(** A movie of one frame and one channel with a peak at lag 20. *)
Definition peaked_movie : list (list (list Q)) :=
  [[map (fun t => if (t =? 0)%nat then 1%Q
                  else if (t =? 20)%nat then (4 # 5)%Q
                       else if (t =? 19)%nat || (t =? 21)%nat then (1 # 2)%Q
                            else 0%Q)
        (seq 0 32)]].

(* ================================================================== *)
(** ** Worked inputs *)

(** The integer variables of [correlogram_frame] on one sample with
    [pic_width = 3], [start = 0] and the default [win_len]. *)
Definition unit_sample_shape : frame_shape :=
  {| fs_win_len := 1; fs_fft_size := 8; fs_start := 0; fs_last := 1; fs_pic_width := 3 |}.

(** Term [k] of the inverse transform, at lag [n], of a constant spectrum
    [w] of size 8, and the real part of the lag-[n] value. *)
Definition lag_term (w : R) (n k : nat) : C :=
  Cmul (RtoC w) (cis (1 * (2 * PI * INR n * INR k / INR 8)))%R.

Definition lag_value (w : R) (n : nat) : R :=
  Cre (Cscal (/ INR 8) (Csum (map (lag_term w n) (seq 0 8)))).
(* ================================================================== *)
(** ** Tensor shapes *)

(** A rank-3 tensor of shape (batch, channels, time). *)
Definition has_shape {A : Type} (batch channels time : nat)
           (y : list (list (list A))) : Prop :=
  length y = batch
  /\ Forall (fun b => length b = channels /\ Forall (fun ch => length ch = time) b) y.

(* ================================================================== *)
(** ** Vowel synthesis: the two filters and the vibrato impulse train *)

(** [math.sqrt(x)]: [ValueError] (math domain error) for [x < 0]. *)
Definition py_sqrt (x : R) : result R :=
  if Rlt_dec x 0 then Raise ValueError else Ok (sqrt x).


(** The two coefficient tensors of [formant_filter(f, sample_rate, x, bw)],
    [a_coeffs] first. *)
Definition formant_coefficients (f sample_rate bw : R) : result (list R * list R) :=
  cft <- py_div f sample_rate ;;
  q <- py_div f bw ;;
  e <- py_div (- PI * cft)%R q ;;
  let rho := exp e in
  r <- py_div 1 (4 * q * q)%R ;;
  s <- py_sqrt (1 - r)%R ;;
  let theta := (2 * PI * cft * s)%R in
  let a2 := (-2 * rho * cos theta)%R in
  let a3 := (rho * rho)%R in
  Ok ([1; a2; a3]%R, [1 + a2 + a3; 0; 0]%R).

(** [formant_filter(f, sample_rate, x, bw)]. *)
Definition formant_filter (f sample_rate : R) (x : list R) (bw : R) : result (list R) :=
  coeffs <- formant_coefficients f sample_rate bw ;;
  lfilter x (fst coeffs) (snd coeffs).



(* ================================================================== *)
(** * Theorems *)

(* ================================================================== *)
(** ** Run-time helpers *)

Lemma mapM_map_ok (A B : Type) (f : A -> result B) (g : A -> B) (l : list A) :
  (forall a, In a l -> f a = Ok (g a)) -> mapM f l = Ok (map g l).
Proof.
  induction l as [|a l IH]; intros Hf; simpl; [reflexivity|].
  rewrite (Hf a (or_introl eq_refl)). simpl.
  rewrite IH by (intros; apply Hf; now right). reflexivity.
Qed.

Lemma repeat_as_map (A : Type) (x : A) (n : nat) :
  repeat x n = map (fun _ => x) (seq 0 n).
Proof.
  generalize 0%nat. induction n as [|n IH]; intros s; simpl; [reflexivity|].
  f_equal. apply IH.
Qed.

(* ================================================================== *)
(** ** The filter primitive, the assembler and the executor *)

Section FilterFacts.
Context {A : Type} `{Num A}.

Lemma lfilter_loop_biquad (n0 n1 n2 d0 d1 d2 : A) (xs : list A) :
  forall x1 x2 xr y1 y2 yr,
    lfilter_loop [d0; d1; d2] [n0; n1; n2] xs (x1 :: x2 :: xr) (y1 :: y2 :: yr)
    = biquad_run n0 n1 n2 d0 d1 d2 x1 x2 y1 y2 xs.
Proof.
  induction xs as [|x xs IH]; intros; simpl; [reflexivity|].
  f_equal. apply IH.
Qed.

Lemma lfilter_channel_biquad (n0 n1 n2 d0 d1 d2 : A) (xs : list A) :
  lfilter_channel [d0; d1; d2] [n0; n1; n2] xs = biquad (n0, n1, n2) (d0, d1, d2) xs.
Proof. unfold lfilter_channel, biquad. simpl. apply lfilter_loop_biquad. Qed.

Lemma zip_filters_map (I : Type) (f ga gb : I -> list A) (l : list I) :
  (forall i, In i l -> length (ga i) = length (gb i)) ->
  zip_filters (map f l) (map ga l) (map gb l)
  = Ok (map (fun i => lfilter_channel (ga i) (gb i) (f i)) l).
Proof.
  induction l as [|i l IH]; intros Hl; simpl; [reflexivity|].
  unfold lfilter at 1. rewrite (Hl i (or_introl eq_refl)), Nat.eqb_refl. simpl.
  rewrite IH by (intros; apply Hl; now right). reflexivity.
Qed.

Lemma column_div_same (u v : list A) :
  length u = length v ->
  column_div u v = Ok (map (fun p => ndiv (fst p) (snd p)) (combine u v)).
Proof. intros E. unfold column_div. now rewrite E, Nat.eqb_refl. Qed.

Lemma nth_column_div (u v : list A) (i : nat) :
  length u = length v -> (i < length u)%nat ->
  nth i (map (fun p => ndiv (fst p) (snd p)) (combine u v)) nzero
  = ndiv (nth i u nzero) (nth i v nzero).
Proof.
  intros E Hi.
  rewrite (nth_indep _ nzero (ndiv (fst (nzero, nzero)) (snd (nzero, nzero)))).
  - rewrite (map_nth (fun p => ndiv (fst p) (snd p))), combine_nth by exact E.
    reflexivity.
  - rewrite length_map, length_combine. lia.
Qed.

End FilterFacts.
Lemma nth_map_seq (B : Type) (f : nat -> B) (n i : nat) (d : B) :
  (i < n)%nat -> nth i (map f (seq 0 n)) d = f i.
Proof.
  intros Hi. rewrite (nth_indep _ d (f 0%nat)) by (rewrite length_map, length_seq; lia).
  rewrite map_nth, seq_nth by lia. reflexivity.
Qed.

Section AssemblerFacts.
Context {A : Type} `{Num A}.

Ltac column_length HF c :=
  let E := fresh "E" in
  assert (E : length c = _) by (apply (proj1 (Forall_forall _ _) HF c); simpl; tauto).

Lemma sos_row_same (u v1 v2 v3 w gain : list A) (n : nat) :
  Forall (fun c => length c = n) [u; v1; v2; v3; w; gain] ->
  sos_row u v1 v2 v3 w gain
  = Ok (map (fun i => [ndiv (nth i u nzero) (nth i gain nzero);
                       nth i v1 nzero; nth i v2 nzero; nth i v3 nzero; nth i w nzero])
            (seq 0 n)).
Proof.
  intros HF.
  column_length HF u. column_length HF v1. column_length HF v2.
  column_length HF v3. column_length HF w. column_length HF gain.
  unfold sos_row. rewrite column_div_same by congruence. simpl.
  unfold same_lengths. simpl.
  rewrite length_map, length_combine.
  replace (Nat.min (length u) (length gain)) with n by lia.
  rewrite E0, E1, E2, E3, !Nat.eqb_refl. simpl.
  f_equal. apply map_ext_in. intros i Hi. apply in_seq in Hi.
  rewrite nth_column_div by lia. reflexivity.
Qed.

Lemma prepare_coefficients_channels (a0 a11 a12 a13 a14 a2 b0 b1 b2 gain : list A) (n : nat) :
  Forall (fun c => length c = n) [a0; a11; a12; a13; a14; a2; b0; b1; b2; gain] ->
  prepare_coefficients [a0; a11; a12; a13; a14; a2; b0; b1; b2; gain]
  = Ok (map (channel_sos a0 a11 a12 a13 a14 a2 b0 b1 b2 gain) (seq 0 n)).
Proof.
  intros HF.
  column_length HF a0. column_length HF a11. column_length HF a12.
  column_length HF a13. column_length HF a14. column_length HF a2.
  column_length HF b0. column_length HF b1. column_length HF b2.
  column_length HF gain.
  unfold prepare_coefficients, channel_count_asserts, py_assert.
  rewrite E, E0, E1, E2, E3, E5, E6, E8, !Nat.eqb_refl. simpl.
  rewrite (@sos_row_same a0 a0 a0 a0 b0 gain n) by (repeat constructor; assumption).
  rewrite (@sos_row_same a11 a12 a13 a14 b1 gain n) by (repeat constructor; assumption).
  rewrite (@sos_row_same a2 a2 a2 a2 b2 gain n) by (repeat constructor; assumption).
  simpl. rewrite !length_map, !length_seq, !Nat.eqb_refl. simpl.
  f_equal. apply map_ext_in. intros i Hi. apply in_seq in Hi.
  unfold channel_sos.
  rewrite !nth_map_seq by lia. reflexivity.
Qed.
End AssemblerFacts.



Lemma mapM_ok_map (I B C0 : Type) (F : B -> result C0) (f : I -> B) (g : I -> C0) (l : list I) :
  (forall i, In i l -> F (f i) = Ok (g i)) -> mapM F (map f l) = Ok (map g l).
Proof.
  induction l as [|i l IH]; intros HF; simpl; [reflexivity|].
  rewrite (HF i (or_introl eq_refl)). simpl.
  rewrite IH by (intros; apply HF; now right). reflexivity.
Qed.

Section ExecutorFacts.
Context {A : Type} `{Num A}.

Lemma lfilter_batching_channels (f : list A -> nat -> list A) (ga gb : nat -> list A)
      (rows : list (list A)) (n : nat) :
  (forall i, length (ga i) = length (gb i)) ->
  lfilter_batching (map (fun row => map (f row) (seq 0 n)) rows)
                   (map ga (seq 0 n)) (map gb (seq 0 n))
  = Ok (map (fun row => map (fun i => lfilter_channel (ga i) (gb i) (f row i)) (seq 0 n)) rows).
Proof.
  intros Hl. unfold lfilter_batching. apply mapM_ok_map.
  intros row _. apply zip_filters_map. intros; apply Hl.
Qed.

Lemma last_axis_channel_sos (a0 a11 a12 a13 a14 a2 b0 b1 b2 gain : list A) (n : nat) (j : Z) (k : nat) :
  (j, k) = ((-1)%Z, 4%nat) \/ (0 <= j <= 3 /\ k = Z.to_nat j)%Z ->
  last_axis (map (channel_sos a0 a11 a12 a13 a14 a2 b0 b1 b2 gain) (seq 0 n)) j
  = Ok (map (fun i => map (fun r => nth k r nzero)
                          (channel_sos a0 a11 a12 a13 a14 a2 b0 b1 b2 gain i)) (seq 0 n)).
Proof.
  intros Hj. unfold last_axis. apply mapM_ok_map. intros i _.
  destruct Hj as [Hj | [Hj ->]].
  - inversion Hj; subst. reflexivity.
  - assert (Hc : j = 0%Z \/ j = 1%Z \/ j = 2%Z \/ j = 3%Z) by lia.
    destruct Hc as [-> | [-> | [-> | ->]]]; reflexivity.
Qed.

(** C2 (amended): the executor runs four biquad stages in series on every
    channel, not three.  On a bank assembled from ten columns of [n]
    channels, [forward] returns, for every input row and every channel
    [i], the cascade of four biquad difference equations with numerators
    [a0/gain, a11/gain, a2/gain], [a0, a12, a2], [a0, a13, a2] and
    [a0, a14, a2] on the shared denominator [b0, b1, b2]; stage [k] feeds
    stage [k+1], and the channels do not mix. *)
Theorem forward_is_four_stage_cascade
        (a0 a11 a12 a13 a14 a2 b0 b1 b2 gain : list A) (n : nat)
        (self : ErbFilterBank A) (time : nat) (rows : list (list A)) :
  Forall (fun c => length c = n) [a0; a11; a12; a13; a14; a2; b0; b1; b2; gain] ->
  prepare_coefficients [a0; a11; a12; a13; a14; a2; b0; b1; b2; gain] = Ok (sos self) ->
  num_channels self = NumChannels (Z.of_nat n) ->
  (1 < time)%nat ->
  forward self (SignalN time rows)
  = Ok (map (fun row =>
               map (fun i => channel_cascade a0 a11 a12 a13 a14 a2 b0 b1 b2 gain i row)
                   (seq 0 n))
            rows).
Proof.
  intros HF Hsos Hn Ht.
  rewrite (prepare_coefficients_channels HF) in Hsos. injection Hsos as Hsos.
  unfold forward. rewrite Hn, <- Hsos.
  replace (time <=? 1)%nat with false by (symmetry; apply Nat.leb_gt; lia).
  cbn [raise_if bind]. unfold tile_channels.
  replace (Z.of_nat n <? 0)%Z with false by (symmetry; apply Z.ltb_ge; lia).
  rewrite Nat2Z.id. cbn [bind].
  rewrite (last_axis_channel_sos _ _ _ _ _ _ _ _ _ _ n (k := 4%nat)) by (left; reflexivity).
  rewrite (last_axis_channel_sos _ _ _ _ _ _ _ _ _ _ n (j := 0%Z) (k := 0%nat)) by (right; split; [lia|reflexivity]).
  cbn [bind].
  rewrite (map_ext _ _ (fun row => repeat_as_map row n)).
  rewrite lfilter_batching_channels by reflexivity.
  change (py_range 3) with [0%Z; 1%Z; 2%Z]. cbn [fold_left].
  unfold forward_stage. cbn [bind].
  rewrite (last_axis_channel_sos _ _ _ _ _ _ _ _ _ _ n (k := 4%nat)) by (left; reflexivity).
  rewrite (last_axis_channel_sos _ _ _ _ _ _ _ _ _ _ n (j := (0+1)%Z) (k := 1%nat)) by (right; split; [lia|reflexivity]).
  cbn [bind]. rewrite lfilter_batching_channels by reflexivity. cbn [bind].
  rewrite (last_axis_channel_sos _ _ _ _ _ _ _ _ _ _ n (j := (1+1)%Z) (k := 2%nat)) by (right; split; [lia|reflexivity]).
  cbn [bind]. rewrite lfilter_batching_channels by reflexivity. cbn [bind].
  rewrite (last_axis_channel_sos _ _ _ _ _ _ _ _ _ _ n (j := (2+1)%Z) (k := 3%nat)) by (right; split; [lia|reflexivity]).
  cbn [bind]. rewrite lfilter_batching_channels by reflexivity.
  f_equal. apply map_ext. intros row. apply map_ext. intros i.
  unfold channel_cascade, cascade4, channel_sos. cbn [map nth].
  rewrite !lfilter_channel_biquad. reflexivity.
Qed.
End ExecutorFacts.

Lemma delay_bank_assembled : prepare_coefficients delay_columns = Ok (sos delay_bank).
Proof. reflexivity. Qed.

Lemma forward_cascade_witness :
  forward delay_bank (SignalN 9 [impulse9])
  = Ok [[channel_cascade [0] [0] [0] [0] [0] [1] [1] [0] [0] [1] 0 impulse9]]%Q.
Proof.
  apply (@forward_is_four_stage_cascade Q Num_Q [0] [0] [0] [0] [0] [1] [1] [0] [0] [1] 1
           delay_bank 9%nat [impulse9])%Q.
  - repeat constructor.
  - reflexivity.
  - reflexivity.
  - lia.
Defined.

Lemma delay_bank_output_8 :
  exists out, forward delay_bank (SignalN 9 [impulse9]) = Ok [[out]] /\ (nth 8 out 0 == 1)%Q.
Proof. eexists. split; [vm_compute; reflexivity | vm_compute; reflexivity]. Qed.

(** A signal is silent from index [m] on. *)
Lemma silent_from_nth (m i : nat) (l : list Q) :
  Forall (fun q => q == 0)%Q (skipn m l) -> (m <= i)%nat -> (nth i l 0 == 0)%Q.
Proof.
  intros HF Hi. replace i with (m + (i - m))%nat by lia.
  rewrite <- nth_skipn. revert HF. generalize (skipn m l) (i - m)%nat.
  intros l' j HF. revert j.
  induction HF as [|x l'' Hx _ IH]; intros [|j]; simpl; auto; reflexivity.
Qed.

Section FirSupport.
Variables n0 n1 n2 : Q.

Let run := biquad_run (A := Q) n0 n1 n2 1%Q 0%Q 0%Q.

Lemma fir_silent_0 (xs : list Q) :
  forall x1 x2 y1 y2,
    (x1 == 0)%Q -> (x2 == 0)%Q -> Forall (fun q => q == 0)%Q xs ->
    Forall (fun q => q == 0)%Q (run x1 x2 y1 y2 xs).
Proof.
  induction xs as [|x xs IH]; intros x1 x2 y1 y2 H1 H2 HF; [constructor|].
  inversion HF as [|? ? Hx HF']; subst.
  unfold run. cbn [biquad_run nadd nsub nmul ndiv Num_Q]. constructor.
  - rewrite Hx, H1, H2. field.
  - apply IH; assumption.
Qed.

Lemma fir_silent_1 (xs : list Q) :
  forall x1 x2 y1 y2,
    (x1 == 0)%Q -> Forall (fun q => q == 0)%Q xs ->
    Forall (fun q => q == 0)%Q (skipn 1 (run x1 x2 y1 y2 xs)).
Proof.
  destruct xs as [|x xs]; intros x1 x2 y1 y2 H1 HF; [constructor|].
  inversion HF as [|? ? Hx HF']; subst.
  unfold run. cbn [biquad_run skipn]. apply fir_silent_0; assumption.
Qed.

Lemma fir_silent_2 (xs : list Q) :
  forall x1 x2 y1 y2,
    Forall (fun q => q == 0)%Q xs ->
    Forall (fun q => q == 0)%Q (skipn 2 (run x1 x2 y1 y2 xs)).
Proof.
  destruct xs as [|x xs]; intros x1 x2 y1 y2 HF; [constructor|].
  inversion HF as [|? ? Hx HF']; subst.
  unfold run. cbn [biquad_run]. change (skipn 2 (?a :: ?l)) with (skipn 1 l).
  apply fir_silent_1; assumption.
Qed.

(** A stage on the denominator [1, 0, 0] delays the end of its input by
    at most two samples. *)
Lemma fir_support (m : nat) :
  forall xs x1 x2 y1 y2,
    Forall (fun q => q == 0)%Q (skipn m xs) ->
    Forall (fun q => q == 0)%Q (skipn (m + 2) (run x1 x2 y1 y2 xs)).
Proof.
  induction m as [|m IH]; intros xs x1 x2 y1 y2 HF.
  - apply fir_silent_2. exact HF.
  - destruct xs as [|x xs]; [constructor|].
    unfold run. cbn [biquad_run]. cbn [Nat.add skipn]. apply IH. exact HF.
Qed.

End FirSupport.

Lemma cascade3_fir_silent_at_8 (n1 n2 n3 : Q * Q * Q) :
  (nth 8 (cascade3 (1, 0, 0) n1 n2 n3 impulse9) 0 == 0)%Q.
Proof.
  destruct n1 as [[p0 p1] p2], n2 as [[q0 q1] q2], n3 as [[r0 r1] r2].
  apply silent_from_nth with (m := 7%nat); [|lia].
  unfold cascade3, biquad. cbn [nzero Num_Q].
  apply (fir_support r0 r1 r2 5), (fir_support q0 q1 q2 3), (fir_support p0 p1 p2 1).
  cbn [skipn impulse9]. repeat constructor; reflexivity.
Qed.

(** C2 (counterexample): on the one-channel bank whose four numerators are
    [0, 0, 1] over the denominator [1, 0, 0], a unit impulse comes out
    delayed by eight samples; no cascade of three biquad stages on that
    denominator, whatever their numerators, delays by more than six. *)
Lemma forward_is_not_three_stages :
  ~ exists n1 n2 n3 : Q * Q * Q,
      forward delay_bank (SignalN 9 [impulse9])
      = Ok [[cascade3 (1, 0, 0) n1 n2 n3 impulse9]]%Q.
Proof.
  intros (n1 & n2 & n3 & Heq).
  destruct delay_bank_output_8 as (out & Hout & H8).
  rewrite Hout in Heq. injection Heq as Heq. 
  rewrite Heq, cascade3_fir_silent_at_8 in H8. discriminate H8.
Qed.
(** C9 (evaluation at the failing input): on ten columns whose [a2] and
    [b2] have two channels while the other eight have one, the seven
    assertions of [prepare_coefficients] all pass although the ten channel
    counts differ; the call then fails later, in [torch.cat], with a
    [RuntimeError] and not with an [AssertionError]. *)
Theorem asserts_skip_a2_and_b2 :
  channel_count_asserts [1] [1] [1] [1] [1] [1] [1] [1]%Q = Ok tt
  /\ ~ (exists n, Forall (fun c : list Q => length c = n) mismatched_columns)
  /\ prepare_coefficients mismatched_columns = Raise RuntimeError.
Proof.
  split; [reflexivity|]. split; [|reflexivity].
  intros [n HF]. unfold mismatched_columns in HF.
  pose proof (proj1 (Forall_forall _ _) HF [1]%Q) as H1.
  pose proof (proj1 (Forall_forall _ _) HF [0; 0]%Q) as H2.
  simpl in H1, H2.
  assert (1 = n)%nat by (apply H1; tauto).
  assert (2 = n)%nat by (apply H2; tauto).
  lia.
Qed.

Open Scope R_scope.

Lemma erb_offset_pos : 0 < ear_q * min_bw.
Proof. unfold ear_q, min_bw. lra. Qed.

Lemma py_log_ok (x : R) : 0 < x -> py_log x = Ok (ln x).
Proof. intros Hx. unfold py_log. destruct (Rle_dec x 0); [lra | reflexivity]. Qed.

Lemma py_log_raise (x : R) : x <= 0 -> py_log x = Raise ValueError.
Proof. intros Hx. unfold py_log. destruct (Rle_dec x 0); [reflexivity | lra]. Qed.

Lemma arange_ok (lo hi : Z) :
  (lo <= hi)%Z ->
  arange lo hi = Ok (map (fun i => (lo + Z.of_nat i)%Z) (seq 0 (Z.to_nat (hi - lo)))).
Proof. intros Hl. unfold arange. now replace (hi <? lo)%Z with false by (symmetry; apply Z.ltb_ge; lia). Qed.

Lemma arange_raise (lo hi : Z) : (hi < lo)%Z -> arange lo hi = Raise RuntimeError.
Proof. intros Hl. unfold arange. now replace (hi <? lo)%Z with true by (symmetry; apply Z.ltb_lt; lia). Qed.

(** What [erb_space] returns on its domain. *)
Lemma erb_space_ok (low_freq high_freq : R) (n : Z) :
  (0 <= n)%Z -> 0 < high_freq + ear_q * min_bw -> 0 < low_freq + ear_q * min_bw ->
  erb_space low_freq high_freq n
  = Ok (map (fun i => erb_point low_freq high_freq n
                                (ln (high_freq + ear_q * min_bw))
                                (ln (low_freq + ear_q * min_bw))
                                (1 + Z.of_nat i)%Z)
            (seq 0 (Z.to_nat n))).
Proof.
  intros Hn Hh Hl. unfold erb_space.
  rewrite arange_ok by lia. cbn [bind].
  rewrite (py_log_ok Hh), (py_log_ok Hl). cbn [bind].
  rewrite map_map. replace (1 + n - 1)%Z with n by lia. reflexivity.
Qed.

(** C6 (amended): [erb_space] validates nothing.  It raises exactly when
    [torch.arange] does ([n < 0], a [RuntimeError]) or when [math.log] does
    (an argument [high_freq + ear_q*min_bw] or [low_freq + ear_q*min_bw]
    that is not positive, a [ValueError]); on every other input, so in
    particular whenever [low_freq > 0], [high_freq > low_freq] and
    [n >= 1], it returns [n] frequencies without error. *)
Theorem erb_space_raises_only_on_domain_errors (low_freq high_freq : R) (n : Z) :
  match erb_space low_freq high_freq n with
  | Ok cf =>
      (0 <= n)%Z /\ 0 < high_freq + ear_q * min_bw /\ 0 < low_freq + ear_q * min_bw
      /\ length cf = Z.to_nat n
  | Raise e =>
      ((n < 0)%Z /\ e = RuntimeError)
      \/ ((0 <= n)%Z
          /\ (high_freq + ear_q * min_bw <= 0 \/ low_freq + ear_q * min_bw <= 0)
          /\ e = ValueError)
  end.
Proof.
  destruct (Z_lt_le_dec n 0) as [Hn | Hn].
  - unfold erb_space. rewrite arange_raise by lia. cbn [bind]. left. now split.
  - destruct (Rle_dec (high_freq + ear_q * min_bw) 0) as [Hh | Hh].
    + unfold erb_space. rewrite arange_ok by lia. cbn [bind].
      rewrite (py_log_raise Hh). cbn [bind]. right. repeat split; auto.
    + destruct (Rle_dec (low_freq + ear_q * min_bw) 0) as [Hl | Hl].
      * unfold erb_space. rewrite arange_ok by lia. cbn [bind].
        rewrite py_log_ok by lra. cbn [bind].
        rewrite (py_log_raise Hl). cbn [bind]. right. repeat split; auto.
      * rewrite erb_space_ok by (lia || lra).
        repeat split; try lia; try lra.
        now rewrite length_map, length_seq.
Qed.

(** C6 (counterexample): [erb_space] returns without error on a
    non-positive [low_freq], on a [high_freq] below [low_freq], and on a
    channel count of zero. *)
Lemma erb_space_accepts_invalid_arguments :
  (-10 <= 0 /\ exists cf, erb_space (-10) 1000 5 = Ok cf)
  /\ (50 <= 100 /\ exists cf, erb_space 100 50 5 = Ok cf)
  /\ ((0 < 1)%Z /\ erb_space 100 1000 0 = Ok []).
Proof.
  assert (Hc : 228 < ear_q * min_bw) by (unfold ear_q, min_bw; lra).
  split; [|split]; (split; [lra || lia|]).
  - eexists. apply erb_space_ok; [lia | lra | lra].
  - eexists. apply erb_space_ok; [lia | lra | lra].
  - rewrite erb_space_ok by (lia || lra). reflexivity.
Qed.
Section ErbScale.
Variables low_freq high_freq : R.
Variable n : Z.
Hypothesis low_pos : 0 < low_freq.
Hypothesis low_lt_high : low_freq < high_freq.
Hypothesis n_pos : (1 <= n)%Z.

Let lh := ln (high_freq + ear_q * min_bw).
Let ll := ln (low_freq + ear_q * min_bw).



Lemma erb_point_last : erb_point low_freq high_freq n lh ll n = low_freq.
Proof.
  unfold erb_point. assert (Hc := erb_offset_pos).
  assert (Hn : 0 < IZR n) by (apply IZR_lt; lia).
  replace (IZR n * (- lh + ll) / IZR n) with (ll + - lh) by (field; lra).
  rewrite exp_plus, exp_Ropp. unfold ll, lh. rewrite !exp_ln by lra.
  field. lra.
Qed.


End ErbScale.



Lemma Rleb_true (x y : R) : x <= y -> Rleb x y = true.
Proof. intros Hx. unfold Rleb. destruct (Rle_dec x y); [reflexivity | contradiction]. Qed.

Lemma Rleb_false (x y : R) : y < x -> Rleb x y = false.
Proof. intros Hx. unfold Rleb. destruct (Rle_dec x y); [lra | reflexivity]. Qed.

Lemma py_div_ok (x y : R) : y <> 0 -> py_div x y = Ok (x / y).
Proof. intros Hy. unfold py_div. destruct (Req_dec_T y 0); [contradiction | reflexivity]. Qed.

(** The designer on explicit centre frequencies: no check at all beyond
    the division [1/fs]. *)
Lemma make_erb_filters_explicit (fs low_freq : R) (cf : list R) :
  fs <> 0 ->
  make_erb_filters fs (CenterFrequencies cf) low_freq = Ok (designer_columns (1 / fs) cf).
Proof. intros Hfs. unfold make_erb_filters. now rewrite py_div_ok. Qed.

(** C7 (amended): the range check lives in the filterbank constructor, not
    in the coefficient designer.  [ErbFilterBank.__init__] raises a
    [ValueError] whenever [sampling_rate <= 0], or the lowest frequency is
    non-positive or at least [sampling_rate/2]; [make_erb_filters] itself,
    given centre frequencies, returns its ten columns for every non-zero
    sample rate and every list of centre frequencies. *)
Theorem range_checks_are_in_the_constructor
        (sampling_rate lowest_frequency : R) (num_channels : channels_arg R) (cf : list R) :
  sampling_rate <= 0 \/ lowest_frequency <= 0 \/ sampling_rate / 2 <= lowest_frequency ->
  ErbFilterBank_init sampling_rate num_channels lowest_frequency = Raise ValueError
  /\ (sampling_rate <> 0 ->
      make_erb_filters sampling_rate (CenterFrequencies cf) lowest_frequency
      = Ok (designer_columns (1 / sampling_rate) cf)).
Proof.
  intros Hrange. split; [|apply make_erb_filters_explicit].
  unfold ErbFilterBank_init.
  destruct (Rle_dec sampling_rate 0) as [Hs | Hs].
  - now rewrite (Rleb_true Hs).
  - rewrite Rleb_false by lra. cbn [raise_if bind].
    destruct Hrange as [Hr | [Hr | Hr]]; [contradiction | |].
    + now rewrite (Rleb_true Hr).
    + rewrite (Rleb_true Hr), orb_true_r. reflexivity.
Qed.

Lemma constructor_range_check_witness :
  ErbFilterBank_init (-16000) (CenterFrequencies [-5; 0; 9000]) 100 = Raise ValueError
  /\ (-16000 <> 0 ->
      make_erb_filters (-16000) (CenterFrequencies [-5; 0; 9000]) 100
      = Ok (designer_columns (1 / -16000) [-5; 0; 9000])).
Proof.
  apply (@range_checks_are_in_the_constructor (-16000) 100
           (CenterFrequencies [-5; 0; 9000]) [-5; 0; 9000]).
  left. lra.
Defined.

(** C7 (counterexample): the designer returns coefficient columns, without
    any error, for a negative sample rate, for centre frequencies that are
    negative, zero or above half the sample rate, and, through [erb_space],
    for a negative lowest frequency. *)
Lemma make_erb_filters_accepts_out_of_range :
  (-16000 <= 0 /\ exists r, make_erb_filters (-16000) (CenterFrequencies [100]) 100 = Ok r)
  /\ (-5 <= 0 /\ 16000 / 2 <= 9000
      /\ exists r, make_erb_filters 16000 (CenterFrequencies [-5; 0; 9000]) 100 = Ok r)
  /\ (-10 <= 0 /\ exists r, make_erb_filters 16000 (NumChannels 4) (-10) = Ok r).
Proof.
  split; [|split].
  - split; [lra|]. eexists. apply make_erb_filters_explicit. lra.
  - split; [lra|]. split; [lra|]. eexists. apply make_erb_filters_explicit. lra.
  - split; [lra|]. assert (Hc : 228 < ear_q * min_bw) by (unfold ear_q, min_bw; lra).
    unfold make_erb_filters. rewrite py_div_ok by lra. cbn [bind].
    rewrite erb_space_ok by (lia || lra). cbn [bind]. eexists. reflexivity.
Qed.
Open Scope Q_scope.

Lemma Qltb_lt (x y : Q) : Qltb x y = true <-> x < y.
Proof.
  unfold Qltb. rewrite negb_true_iff. split.
  - intros Hb. apply Qnot_le_lt. intros Hle. apply Qle_bool_iff in Hle. congruence.
  - intros Hlt. destruct (Qle_bool y x) eqn:E; [|reflexivity].
    apply Qle_bool_iff in E. exfalso. exact (Qlt_not_le _ _ Hlt E).
Qed.

Lemma fill_from_Forall (P : Q -> Prop) (z : Q) (a b : nat) (l : list Q) :
  P z -> Forall P l -> forall i, Forall P (fill_from i a b z l).
Proof.
  intros Hz HF. induction HF as [|x l Hx HF IH]; intros i; simpl; constructor.
  - destruct ((a <=? i)%nat && (i <? b)%nat); assumption.
  - apply IH.
Qed.

Lemma slice_fill_Forall (P : Q -> Prop) (z : Q) (lo hi : option Z) (l : list Q) :
  P z -> Forall P l -> Forall P (slice_fill lo hi z l).
Proof.
  intros Hz HF. unfold slice_fill. destruct (slice_range (length l) lo hi).
  now apply fill_from_Forall.
Qed.

Lemma Forall_nth_default (P : Q -> Prop) (l : list Q) (d : Q) (i : nat) :
  P d -> Forall P l -> P (nth i l d).
Proof.
  intros Hd HF. revert i. induction HF as [|x l Hx HF IH]; intros [|i]; simpl; auto.
Qed.

(** Column sums of a valid frame lie between zero and the lag-0 sum. *)
Lemma column_sum_bounds (num_times : nat) (frame : list (list Q)) (t : nat) :
  valid_frame num_times frame ->
  0 <= fold_right Qplus 0 (map (fun ch => nth t ch 0) frame)
  /\ fold_right Qplus 0 (map (fun ch => nth t ch 0) frame)
     <= fold_right Qplus 0 (map (fun ch => nth 0 ch 0) frame).
Proof.
  intros HF. induction HF as [|ch frame [_ Hch] HF IH]; simpl.
  - split; apply Qle_refl.
  - destruct IH as [IH0 IH1]. destruct (Hch t) as [H0 H1]. split.
    + replace 0 with (0 + 0) by reflexivity. apply Qplus_le_compat; assumption.
    + apply Qplus_le_compat; assumption.
Qed.

Lemma channel_sum_nth (num_times : nat) (frame : list (list Q)) (t : nat) :
  (t < num_times)%nat ->
  nth t (channel_sum num_times frame) 0
  = fold_right Qplus 0 (map (fun ch => nth t ch 0) frame).
Proof. intros Ht. unfold channel_sum. now rewrite nth_map_seq. Qed.

Lemma channel_sum_bounded (num_times : nat) (frame : list (list Q)) :
  valid_frame num_times frame -> (0 < num_times)%nat ->
  Forall (fun x => 0 <= x /\ x <= nth 0 (channel_sum num_times frame) 0)
         (channel_sum num_times frame).
Proof.
  intros HF Hn. rewrite channel_sum_nth by exact Hn.
  unfold channel_sum. apply Forall_forall. intros x Hx.
  apply in_map_iff in Hx. destruct Hx as (t & <- & _).
  now apply column_sum_bounds with (num_times := num_times).
Qed.

Lemma py_index_0 (A : Type) (l : list A) (x : A) :
  py_index l 0 = Ok x -> exists l', l = x :: l'.
Proof.
  unfold py_index. simpl. destruct l as [|y l']; simpl; [discriminate|].
  intros E. injection E as ->. now exists l'.
Qed.

Lemma mapM_nth_error (A B : Type) (f : A -> result B) (l : list A) (bs : list B) :
  mapM f l = Ok bs ->
  forall j a, nth_error l j = Some a -> exists b, nth_error bs j = Some b /\ f a = Ok b.
Proof.
  revert bs. induction l as [|x l IH]; intros bs Hm j a Hj.
  - destruct j; discriminate.
  - simpl in Hm. destruct (f x) as [b|e] eqn:Ef; [|discriminate]. simpl in Hm.
    destruct (mapM f l) as [bs'|e] eqn:Em; [|discriminate]. simpl in Hm.
    injection Hm as <-. destruct j as [|j]; simpl in *.
    + injection Hj as <-. now exists b.
    + now apply (IH bs' eq_refl).
Qed.

Lemma Qdiv_unit_interval (x y : Q) : 0 <= x -> x <= y -> 0 < y -> 0 <= x / y <= 1.
Proof.
  intros Hx Hxy Hy. split.
  - apply Qle_shift_div_l; [exact Hy|]. now rewrite Qmult_0_l.
  - apply Qle_shift_div_r; [exact Hy|]. now rewrite Qmult_1_l.
Qed.

(** C3: on a movie of valid correlogram frames, the salience that the
    pitch extractor reports for a frame whose summed lag-0 value is
    strictly positive lies in the closed interval [0, 1]. *)
Theorem salience_in_unit_interval
        (num_times : nat) (frames : list (list (list Q))) (width : Z)
        (sr low_pitch high_pitch : Q) (pitch salience : list Q)
        (j : nat) (frame : list (list Q)) :
  Forall (valid_frame num_times) frames ->
  correlogram_pitch num_times frames width sr low_pitch high_pitch = Ok (pitch, salience) ->
  nth_error frames j = Some frame ->
  0 < nth 0 (channel_sum num_times frame) 0 ->
  exists s, nth_error salience j = Some s /\ 0 <= s <= 1.
Proof.
  intros Hvalid Hrun Hj Hzero.
  unfold correlogram_pitch in Hrun.
  destruct (Qeq_bool high_pitch 0); [discriminate|]. cbn [raise_if bind] in Hrun.
  match type of Hrun with
  | bind (mapM ?f frames) _ = _ => destruct (mapM f frames) as [est|e] eqn:Hest; [|discriminate]
  end.
  cbn [bind] in Hrun. injection Hrun as Hp Hs.
  destruct (mapM_nth_error _ _ Hest _ Hj) as ([pj sj] & Hnth & Hframe).
  exists sj. split.
  { rewrite <- Hs. now rewrite nth_error_map, Hnth. }
  assert (Hv : valid_frame num_times frame).
  { apply (proj1 (Forall_forall _ _) Hvalid). eapply nth_error_In; eassumption. }
  unfold pitch_frame in Hframe.
  destruct (py_index (channel_sum num_times frame) 0) as [zero_lag|e] eqn:Hz; [|discriminate].
  cbn [bind] in Hframe.
  destruct (first_valley width (channel_sum num_times frame)) as [valley|e]; [|discriminate].
  cbn [bind] in Hframe. injection Hframe as _ Hsj.
  assert (Hn : (0 < num_times)%nat).
  { apply py_index_0 in Hz. destruct Hz as (l' & Hl).
    assert (Hlen : length (channel_sum num_times frame) = num_times)
      by (unfold channel_sum; now rewrite length_map, length_seq).
    rewrite Hl in Hlen. simpl in Hlen. lia. }
  assert (Hz0 : zero_lag = nth 0 (channel_sum num_times frame) 0).
  { apply py_index_0 in Hz. destruct Hz as (l' & ->). reflexivity. }
  pose proof (channel_sum_bounded Hv Hn) as Hb. rewrite <- Hz0 in Hb, Hzero.
  assert (Hz_ok : 0 <= 0 /\ 0 <= zero_lag).
  { split; [apply Qle_refl | now apply Qlt_le_weak]. }
  match type of Hsj with
  | nth ?p ?l 0 / _ = _ =>
      assert (Hpk : 0 <= nth p l 0 /\ nth p l 0 <= zero_lag)
  end.
  { apply Forall_nth_default with (P := fun x => 0 <= x /\ x <= zero_lag); [exact Hz_ok|].
    repeat apply slice_fill_Forall; try exact Hz_ok. exact Hb. }
  rewrite <- Hsj. apply Qdiv_unit_interval; tauto.
Qed.

Lemma peaked_movie_valid : Forall (valid_frame 32) peaked_movie.
Proof.
  constructor; [|constructor]. constructor; [|constructor].
  split; [reflexivity|]. intros t.
  apply Forall_nth_default with (P := fun x => 0 <= x /\ x <= 1).
  - split; discriminate.
  - vm_compute. repeat constructor; discriminate.
Qed.

Lemma salience_witness : exists s, nth_error [4 # 5] 0 = Some s /\ 0 <= s <= 1.
Proof.
  apply (@salience_in_unit_interval 32 peaked_movie 32 16000 0 20000
           [16000 # 20] [4 # 5] 0 (hd [] peaked_movie)).
  - exact peaked_movie_valid.
  - vm_compute. reflexivity.
  - reflexivity.
  - vm_compute. reflexivity.
Defined.

Lemma fill_from_as_map (A : Type) (d z : A) (a b : nat) (l : list A) :
  forall s,
    fill_from s a b z l
    = map (fun i => if (a <=? i)%nat && (i <? b)%nat then z else nth (i - s) l d)
          (seq s (length l)).
Proof.
  induction l as [|x l IH]; intros s; simpl; [reflexivity|].
  rewrite Nat.sub_diag. f_equal. rewrite IH. apply map_ext_in.
  intros i Hi. apply in_seq in Hi.
  replace (i - s)%nat with (S (i - S s)) by lia. reflexivity.
Qed.

Lemma slice_fill_as_map (A : Type) (d z : A) (lo hi : option Z) (l : list A) :
  slice_fill lo hi z l
  = map (fun i => if (fst (slice_range (length l) lo hi) <=? i)%nat
                     && (i <? snd (slice_range (length l) lo hi))%nat
                  then z else nth i l d)
        (seq 0 (length l)).
Proof.
  unfold slice_fill. destruct (slice_range (length l) lo hi) as [a b]. simpl.
  rewrite (fill_from_as_map d). apply map_ext. intros i. now rewrite Nat.sub_0_r.
Qed.





Lemma slice_bound_nonneg (n i : Z) : (0 <= i)%Z -> slice_bound n i = Z.min i n.
Proof.
  intros Hi. unfold slice_bound.
  now replace (i <? 0)%Z with false by (symmetry; apply Z.ltb_ge; exact Hi).
Qed.





(** C10: there is a rank-3, non-negative correlogram (a silent movie, every
    frame as the frame builder returns it for silence) on which the valley
    search finds no positive first difference: indexing the first element
    of the empty result raises an [IndexError], and [correlogram_pitch]
    returns no pitch/salience pair. *)
Theorem valley_search_can_come_up_empty :
  exists (num_times : nat) (frames : list (list (list Q))),
    Forall (valid_frame num_times) frames
    /\ Forall (fun frame =>
                 first_valley 256 (channel_sum num_times frame) = Raise IndexError)
              frames
    /\ correlogram_pitch num_times frames 256 22254.54 0 20000 = Raise IndexError.
Proof.
  exists 256%nat, silent_movie. split; [|split].
  - constructor; [|constructor]. constructor; [|constructor; [|constructor]].
    + split; [reflexivity|]. intros t.
      apply Forall_nth_default with (P := fun x => 0 <= x /\ x <= 0).
      * split; discriminate.
      * apply Forall_forall. intros x Hx. apply repeat_spec in Hx. subst.
        split; discriminate.
    + split; [reflexivity|]. intros t.
      apply Forall_nth_default with (P := fun x => 0 <= x /\ x <= 0).
      * split; discriminate.
      * apply Forall_forall. intros x Hx. apply repeat_spec in Hx. subst.
        split; discriminate.
  - constructor; [|constructor]. vm_compute. reflexivity.
  - vm_compute. reflexivity.
Qed.
Close Scope Q_scope.

(* ================================================================== *)
(** ** The correlogram array builder on short signals *)

Lemma py_slice_length (A : Type) (lo hi : option Z) (l : list A) :
  length (py_slice lo hi l) = slice_len (length l) lo hi.
Proof.
  unfold py_slice, slice_len. destruct (slice_range (length l) lo hi) as [a b].
  rewrite length_firstn, length_skipn. lia.
Qed.

Lemma dft_length (sign : R) (f : list C) : length (dft sign f) = length f.
Proof. unfold dft. now rewrite length_map, length_seq. Qed.

Lemma autocorrelation_length (f : list R) : length (autocorrelation f) = length f.
Proof.
  unfold autocorrelation, ifft, fft. now rewrite length_map, dft_length, length_map, dft_length, length_map.
Qed.

Lemma padded_segment_length (sh : frame_shape) (row : list R) :
  length (padded_segment sh row)
  = Nat.max (Nat.min (slice_len (length row) (Some (fs_start sh)) (Some (fs_last sh)))
                     (slice_len (Z.to_nat (fs_win_len sh)) None
                                (Some (fs_last sh - fs_start sh)%Z)))
            (Z.to_nat (fs_fft_size sh)).
Proof.
  unfold padded_segment.
  rewrite length_app, length_skipn, repeat_length, length_map, length_combine.
  rewrite !py_slice_length. unfold window. rewrite length_map, length_seq. lia.
Qed.

Lemma frame_row_length (sh : frame_shape) (row : list R) :
  length (normalize_row (clipped_autocorrelation sh row))
  = slice_len (length (padded_segment sh row)) None (Some (fs_pic_width sh)).
Proof.
  unfold normalize_row, clipped_autocorrelation.
  now rewrite !length_map, py_slice_length, autocorrelation_length.
Qed.

Section ShortSignal.
Variable data_len : nat.
Variable rows : list (list R).
Variable sampling_rate : Q.
Variables frame_rate width : Z.

Let frame_increment := py_int (sampling_rate / inject_Z frame_rate)%Q.

Hypothesis rate_nonzero : frame_rate <> 0%Z.
Hypothesis increment_pos : (0 < frame_increment)%Z.
Hypothesis too_short : (Z.of_nat data_len < width)%Z.

Lemma short_signal_no_frame :
  (frame_increment <= width - Z.of_nat data_len)%Z ->
  correlogram_array data_len rows sampling_rate frame_rate width = Raise RuntimeError.
Proof.
  intros Hgap. unfold correlogram_array. fold frame_increment.
  replace (frame_rate =? 0)%Z with false by (symmetry; apply Z.eqb_neq; exact rate_nonzero).
  replace (frame_increment =? 0)%Z with false by (symmetry; apply Z.eqb_neq; lia).
  cbn [raise_if bind].
  assert (Hq : (Z.quot (Z.of_nat data_len - width) frame_increment + 1 <= 0)%Z).
  { replace (Z.of_nat data_len - width)%Z with (- (width - Z.of_nat data_len))%Z by lia.
    rewrite Z.quot_opp_l by lia. rewrite Z.quot_div_nonneg by lia.
    assert (1 <= (width - Z.of_nat data_len) / frame_increment)%Z
      by (apply Z.div_le_lower_bound; lia).
    lia. }
  unfold py_range.
  replace (Z.to_nat (Z.quot (Z.of_nat data_len - width) frame_increment + 1)) with 0%nat by lia.
  reflexivity.
Qed.

Lemma short_signal_one_frame :
  (width - Z.of_nat data_len < frame_increment)%Z ->
  correlogram_array data_len rows sampling_rate frame_rate width
  = (frame <- correlogram_frame data_len rows width 0 (frame_increment * 4) ;; Ok [frame]).
Proof.
  intros Hgap. unfold correlogram_array. fold frame_increment.
  replace (frame_rate =? 0)%Z with false by (symmetry; apply Z.eqb_neq; exact rate_nonzero).
  replace (frame_increment =? 0)%Z with false by (symmetry; apply Z.eqb_neq; lia).
  cbn [raise_if bind].
  assert (Hq : Z.quot (Z.of_nat data_len - width) frame_increment = 0%Z).
  { replace (Z.of_nat data_len - width)%Z with (- (width - Z.of_nat data_len))%Z by lia.
    rewrite Z.quot_opp_l by lia. rewrite Z.quot_small by lia. reflexivity. }
  rewrite Hq. change (py_range (0 + 1)) with [0%Z]. cbn [mapM].
  change (0 * frame_increment)%Z with 0%Z.
  destruct (correlogram_frame data_len rows width 0 (frame_increment * 4)); reflexivity.
Qed.

End ShortSignal.

(** C8 (amended): for a signal shorter than the requested width (and a
    positive frame increment), the array builder reports an error, from
    concatenating an empty list of frames, exactly when the signal is short
    by at least one frame increment; when it is short by less, [int]
    truncates the negative quotient to zero, the frame count is one, and
    the builder returns the one-frame movie that the frame builder yields
    at start 0 (or that call's error). *)
Theorem short_signal_error_or_single_frame
        (data_len : nat) (rows : list (list R)) (sampling_rate : Q) (frame_rate width : Z) :
  frame_rate <> 0%Z ->
  (0 < py_int (sampling_rate / inject_Z frame_rate)%Q)%Z ->
  (Z.of_nat data_len < width)%Z ->
  ((py_int (sampling_rate / inject_Z frame_rate)%Q <= width - Z.of_nat data_len)%Z ->
   correlogram_array data_len rows sampling_rate frame_rate width = Raise RuntimeError)
  /\ ((width - Z.of_nat data_len < py_int (sampling_rate / inject_Z frame_rate)%Q)%Z ->
      correlogram_array data_len rows sampling_rate frame_rate width
      = (frame <- correlogram_frame data_len rows width 0
                    (py_int (sampling_rate / inject_Z frame_rate)%Q * 4) ;;
         Ok [frame])).
Proof.
  intros Hrate Hinc Hshort. split.
  - now apply short_signal_no_frame.
  - now apply short_signal_one_frame.
Qed.

Lemma short_signal_witness :
  ((py_int (16000 / inject_Z 12)%Q <= 256 - Z.of_nat 200)%Z ->
   correlogram_array 200 [repeat 1%R 200] 16000 12 256 = Raise RuntimeError)
  /\ ((256 - Z.of_nat 200 < py_int (16000 / inject_Z 12)%Q)%Z ->
      correlogram_array 200 [repeat 1%R 200] 16000 12 256
      = (frame <- correlogram_frame 200 [repeat 1%R 200] 256 0
                    (py_int (16000 / inject_Z 12)%Q * 4) ;;
         Ok [frame])).
Proof.
  apply (@short_signal_error_or_single_frame 200 [repeat 1%R 200] 16000 12 256).
  - discriminate.
  - reflexivity.
  - reflexivity.
Defined.

Lemma frame_checks_short_signal :
  frame_checks 200 256 0 (1333 * 4)
  = Ok {| fs_win_len := 5332; fs_fft_size := 16384; fs_start := 0;
          fs_last := 200; fs_pic_width := 256 |}.
Proof. vm_compute. reflexivity. Qed.

(** C8 (counterexample): 200 samples of one channel at 16 kHz, with the
    default frame rate 12 and width 256 (so [T < width]): the builder
    returns, without error, a movie of one frame holding one channel of
    256 lags. *)
Lemma short_signal_yields_a_frame :
  (Z.of_nat 200 < 256)%Z
  /\ exists frame,
       correlogram_array 200 [repeat 1%R 200] 16000 12 256 = Ok [frame]
       /\ length frame = 1%nat
       /\ Forall (fun lags => length lags = 256%nat) frame.
Proof.
  split; [reflexivity|].
  eexists. split; [|split].
  - rewrite short_signal_one_frame by (try discriminate; reflexivity).
    change (py_int (16000 / inject_Z 12)%Q) with 1333%Z.
    unfold correlogram_frame. rewrite frame_checks_short_signal. reflexivity.
  - reflexivity.
  - constructor; [|constructor].
    rewrite frame_row_length, padded_segment_length, repeat_length.
    vm_compute. reflexivity.
Qed.

(* ================================================================== *)
(** ** The correlogram frame builder *)


Lemma padded_unit_sample :
  padded_segment unit_sample_shape [1] = [1 * window_point 1 0; 0; 0; 0; 0; 0; 0; 0].
Proof. reflexivity. Qed.

Lemma window_point_1_0 : window_point 1 0 = / sqrt 1.5896.
Proof.
  unfold window_point. cbv zeta.
  replace (2 * PI * 0 / 1 + PI / 1) with PI by field.
  rewrite cos_PI.
  replace (64 / 256) with ((1 / 2) * (1 / 2)) by field.
  rewrite sqrt_square by lra.
  replace (4 * 0.54 * 0.54 + 2 * -0.46 * -0.46) with 1.5896 by lra.
  unfold Rdiv. generalize (/ sqrt 1.5896). intros t. lra.
Qed.

Lemma Forall_nth_default_gen (A : Type) (P : A -> Prop) (l : list A) (d : A) (i : nat) :
  P d -> Forall P l -> P (nth i l d).
Proof.
  intros Hd HF. revert i. induction HF as [|x l Hx HF IH]; intros [|i]; simpl; auto.
Qed.

Lemma Cmul_0_l (z : C) : Cmul (RtoC 0) z = RtoC 0.
Proof. unfold Cmul, RtoC, Cre, Cim. simpl. f_equal; ring. Qed.

Lemma Csum_all_zero (l : list C) : Forall (fun z => z = RtoC 0) l -> Csum l = RtoC 0.
Proof.
  induction 1 as [|z l Hz _ IH]; simpl; [reflexivity|].
  rewrite Hz, IH. unfold Cadd, RtoC, Cre, Cim. simpl. f_equal; ring.
Qed.

(** The transform of an impulse at index 0 is constant. *)
Lemma dft_impulse (sign v : R) (zs : list C) :
  Forall (fun z => z = RtoC 0) zs ->
  dft sign (RtoC v :: zs) = map (fun _ => RtoC v) (seq 0 (S (length zs))).
Proof.
  intros Hz. unfold dft. apply map_ext. intros k.
  cbn [length seq map nth].
  replace (sign * (2 * PI * INR k * INR 0 / INR (S (length zs)))) with 0
    by (simpl INR at 2; unfold Rdiv; ring).
  match goal with
  | |- Csum (?a :: ?l) = _ => change (Csum (a :: l)) with (Cadd a (Csum l))
  end.
  rewrite Csum_all_zero.
  - unfold cis, Cadd, Cmul, RtoC, Cre, Cim. rewrite cos_0, sin_0. simpl. f_equal; ring.
  - apply Forall_forall. intros z Hin. apply in_map_iff in Hin.
    destruct Hin as (n & <- & Hn). apply in_seq in Hn.
    destruct n as [|n]; [lia|]. cbn [nth].
    assert (Hnth : nth n zs (RtoC 0) = RtoC 0).
    { apply Forall_nth_default_gen; [reflexivity | exact Hz]. }
    rewrite Hnth. apply Cmul_0_l.
Qed.


Lemma ifft_constant_8 (w : R) :
  ifft (map (fun _ => RtoC w) (seq 0 8))
  = map (fun n => Cscal (/ INR 8) (Csum (map (lag_term w n) (seq 0 8)))) (seq 0 8).
Proof.
  unfold ifft, dft. rewrite length_map, length_seq, map_map.
  apply map_ext. intros n. reflexivity.
Qed.

Lemma lag_value_0 (w : R) : lag_value w 0 = w.
Proof.
  unfold lag_value, lag_term.
  cbn [seq map Csum fold_right Cadd Cmul Cscal Cre Cim RtoC cis fst snd].
  repeat match goal with
         | |- context [cos ?t] =>
             replace t with 0 by (simpl; unfold Rdiv; ring); rewrite cos_0
         | |- context [sin ?t] =>
             replace t with 0 by (simpl; unfold Rdiv; ring); rewrite sin_0
         end.
  simpl. field.
Qed.

Lemma lag_value_bound (w : R) (n : nat) :
  n = 1%nat \/ n = 2%nat -> 0 <= w -> lag_value w n <= 3 / 4 * w.
Proof.
  intros Hn Hw. unfold lag_value, lag_term.
  cbn [seq map Csum fold_right Cadd Cmul Cscal Cre Cim RtoC cis fst snd].
  destruct Hn as [-> | ->].
  - replace (1 * (2 * PI * INR 1 * INR 4 / INR 8)) with PI by (simpl; field).
    rewrite cos_PI.
    repeat match goal with
           | |- context [cos ?t] =>
               let H := fresh "Hc" in
               pose proof (COS_bound t) as H; generalize dependent (cos t); intros
           end.
    repeat match goal with
           | |- context [sin ?t] => generalize (sin t); intros
           end.
    simpl INR. nra.
  - replace (1 * (2 * PI * INR 2 * INR 2 / INR 8)) with PI by (simpl; field).
    rewrite cos_PI.
    repeat match goal with
           | |- context [cos ?t] =>
               let H := fresh "Hc" in
               pose proof (COS_bound t) as H; generalize dependent (cos t); intros
           end.
    repeat match goal with
           | |- context [sin ?t] => generalize (sin t); intros
           end.
    simpl INR. nra.
Qed.

Lemma Rltb_true (x y : R) : Rltb x y = true <-> x < y.
Proof. unfold Rltb. destruct (Rlt_dec x y); split; intros; auto; discriminate. Qed.

Lemma good_row_spec (pic : list R) :
  good_row pic = true
  <-> 0 < nth 0 pic 0 /\ nth 1 pic 0 < nth 0 pic 0 /\ nth 2 pic 0 < nth 0 pic 0.
Proof. unfold good_row. now rewrite !andb_true_iff, !Rltb_true. Qed.

Lemma clipped_autocorrelation_nonneg (sh : frame_shape) (row : list R) :
  Forall (fun v => 0 <= v) (clipped_autocorrelation sh row).
Proof.
  unfold clipped_autocorrelation. apply Forall_forall. intros v Hv.
  apply in_map_iff in Hv. destruct Hv as (z & <- & _). apply Rmax_l.
Qed.

Lemma norm_factor_nonneg (pic : list R) : 0 <= norm_factor pic.
Proof.
  unfold norm_factor. destruct (good_row pic) eqn:Hg; [|lra].
  apply good_row_spec in Hg. destruct Hg as (H0 & _).
  apply Rlt_le, Rdiv_lt_0_compat; [lra | now apply sqrt_lt_R0].
Qed.

Lemma Forall2_map_same (A B : Type) (P : A -> B -> Prop) (f : A -> B) (l : list A) :
  (forall a, P a (f a)) -> Forall2 P l (map f l).
Proof. intros Hf. induction l; simpl; constructor; auto. Qed.

Lemma normalize_good_row (pic : list R) :
  0 < nth 0 pic 0 /\ nth 1 pic 0 < nth 0 pic 0 /\ nth 2 pic 0 < nth 0 pic 0 ->
  normalize_row pic = map (fun v => v * (1 / sqrt (nth 0 pic 0))) pic
  /\ nth 0 (normalize_row pic) 0 = sqrt (nth 0 pic 0).
Proof.
  intros Hg. assert (Hb : good_row pic = true) by now apply good_row_spec.
  destruct Hg as (H0 & _).
  unfold normalize_row, norm_factor. rewrite Hb. split; [reflexivity|].
  destruct pic as [|p0 pic]; simpl in *; [lra|].
  assert (Hs : 0 < sqrt p0) by now apply sqrt_lt_R0.
  rewrite <- (sqrt_sqrt p0) at 1 by lra. field. lra.
Qed.

Lemma normalize_bad_row (pic : list R) :
  ~ (0 < nth 0 pic 0 /\ nth 1 pic 0 < nth 0 pic 0 /\ nth 2 pic 0 < nth 0 pic 0) ->
  Forall (fun v => v = 0) (normalize_row pic).
Proof.
  intros Hg. assert (Hb : good_row pic = false).
  { destruct (good_row pic) eqn:E; [|reflexivity]. apply good_row_spec in E. contradiction. }
  unfold normalize_row, norm_factor. rewrite Hb.
  apply Forall_forall. intros v Hv. apply in_map_iff in Hv.
  destruct Hv as (x & <- & _). ring.
Qed.

(** X1.  The frame builder's normalisation.  Whenever [correlogram_frame]
    returns a frame, every row of it comes from the clipped autocorrelation
    [pic] of the matching input row: a row that passes the three-point test
    at lag 0 is [pic] multiplied by [1/sqrt(pic[0])], so that its lag-0
    value is [sqrt(pic[0])]; every other row is zero throughout; and no
    value of the frame is negative. *)
Theorem frame_rows_scaled_by_inverse_root
        (data_len : nat) (rows : list (list R)) (pic_width start win_len : Z)
        (frame : list (list R)) :
  correlogram_frame data_len rows pic_width start win_len = Ok frame ->
  exists sh,
    frame_checks data_len pic_width start win_len = Ok sh
    /\ Forall2
         (fun row out =>
            let pic := clipped_autocorrelation sh row in
            length out = length pic
            /\ Forall (fun v => 0 <= v) out
            /\ (0 < nth 0 pic 0 /\ nth 1 pic 0 < nth 0 pic 0 /\ nth 2 pic 0 < nth 0 pic 0 ->
                out = map (fun v => v * (1 / sqrt (nth 0 pic 0))) pic
                /\ nth 0 out 0 = sqrt (nth 0 pic 0))
            /\ (~ (0 < nth 0 pic 0 /\ nth 1 pic 0 < nth 0 pic 0
                   /\ nth 2 pic 0 < nth 0 pic 0) ->
                Forall (fun v => v = 0) out))
         rows frame.
Proof.
  intros Hrun. unfold correlogram_frame in Hrun.
  destruct (frame_checks data_len pic_width start win_len) as [sh|e]; [|discriminate].
  cbn [bind] in Hrun. injection Hrun as <-.
  exists sh. split; [reflexivity|].
  apply Forall2_map_same. intros row. cbv zeta.
  split; [unfold normalize_row; now rewrite length_map|].
  split.
  - unfold normalize_row. apply Forall_forall. intros v Hv.
    apply in_map_iff in Hv. destruct Hv as (x & <- & Hx).
    apply Rmult_le_pos; [|apply norm_factor_nonneg].
    exact (proj1 (Forall_forall _ _) (clipped_autocorrelation_nonneg sh row) x Hx).
  - split; [apply normalize_good_row | apply normalize_bad_row].
Qed.

Lemma frame_normalisation_witness :
  exists sh,
    frame_checks 1 3 0 0 = Ok sh
    /\ Forall2
         (fun row out =>
            let pic := clipped_autocorrelation sh row in
            length out = length pic
            /\ Forall (fun v => 0 <= v) out
            /\ (0 < nth 0 pic 0 /\ nth 1 pic 0 < nth 0 pic 0 /\ nth 2 pic 0 < nth 0 pic 0 ->
                out = map (fun v => v * (1 / sqrt (nth 0 pic 0))) pic
                /\ nth 0 out 0 = sqrt (nth 0 pic 0))
            /\ (~ (0 < nth 0 pic 0 /\ nth 1 pic 0 < nth 0 pic 0
                   /\ nth 2 pic 0 < nth 0 pic 0) ->
                Forall (fun v => v = 0) out))
         [[1]] [normalize_row (clipped_autocorrelation unit_sample_shape [1])].
Proof.
  apply (@frame_rows_scaled_by_inverse_root 1 [[1]] 3 0 0
           [normalize_row (clipped_autocorrelation unit_sample_shape [1])]).
  reflexivity.
Defined.

(** The autocorrelation of a row that is zero after its first sample. *)
Lemma autocorrelation_impulse (v : R) :
  autocorrelation [v; 0; 0; 0; 0; 0; 0; 0]
  = map (fun n => Cscal (/ INR 8) (Csum (map (lag_term (v * v) n) (seq 0 8)))) (seq 0 8).
Proof.
  unfold autocorrelation, fft. cbn [map].
  rewrite dft_impulse by (repeat constructor).
  rewrite map_map. cbn [length].
  rewrite <- ifft_constant_8. f_equal.
  apply map_ext. intros _. unfold Cmul, Cconj, RtoC, Cre, Cim. simpl. f_equal; ring.
Qed.

(** On the single sample [1]: lag 0 of the clipped autocorrelation is
    [1/1.5896], the squared window value, and lags 1 and 2 stay below it. *)
Lemma unit_sample_pic :
  exists p1 p2,
    clipped_autocorrelation unit_sample_shape [1] = [/ 1.5896; p1; p2]
    /\ p1 < / 1.5896 /\ p2 < / 1.5896.
Proof.
  assert (Hw : (1 * window_point 1 0) * (1 * window_point 1 0) = / 1.5896).
  { rewrite window_point_1_0, Rmult_1_l, <- Rinv_mult, sqrt_sqrt by lra. reflexivity. }
  assert (Hpos : 0 < / 1.5896) by (apply Rinv_0_lt_compat; lra).
  unfold clipped_autocorrelation. rewrite padded_unit_sample, autocorrelation_impulse.
  rewrite Hw.
  exists (Rmax 0 (lag_value (/ 1.5896) 1)), (Rmax 0 (lag_value (/ 1.5896) 2)).
  split.
  - transitivity [Rmax 0 (lag_value (/ 1.5896) 0); Rmax 0 (lag_value (/ 1.5896) 1);
                  Rmax 0 (lag_value (/ 1.5896) 2)]; [reflexivity|].
    rewrite lag_value_0, Rmax_right by lra. reflexivity.
  - split; apply Rmax_lub_lt; try lra.
    + pose proof (@lag_value_bound (/ 1.5896) 1 (or_introl eq_refl)). lra.
    + pose proof (@lag_value_bound (/ 1.5896) 2 (or_intror eq_refl)). lra.
Qed.

(** The frame of the single sample [1]: its one channel passes the
    three-point test, and its lag-0 value is [sqrt(1/1.5896)], about
    0.793, not 1. *)
Lemma unit_sample_frame :
  exists out,
    correlogram_frame 1 [[1]] 3 0 0 = Ok [out]
    /\ good_row (clipped_autocorrelation unit_sample_shape [1]) = true
    /\ nth 0 out 0 = sqrt (/ 1.5896)
    /\ nth 0 out 0 <> 1.
Proof.
  destruct unit_sample_pic as (p1 & p2 & Hpic & H1 & H2).
  assert (Hpos : 0 < / 1.5896) by (apply Rinv_0_lt_compat; lra).
  assert (Hgood : 0 < nth 0 (clipped_autocorrelation unit_sample_shape [1]) 0
                  /\ nth 1 (clipped_autocorrelation unit_sample_shape [1]) 0
                     < nth 0 (clipped_autocorrelation unit_sample_shape [1]) 0
                  /\ nth 2 (clipped_autocorrelation unit_sample_shape [1]) 0
                     < nth 0 (clipped_autocorrelation unit_sample_shape [1]) 0).
  { rewrite Hpic. simpl. lra. }
  exists (normalize_row (clipped_autocorrelation unit_sample_shape [1])).
  split; [reflexivity|]. split; [now apply good_row_spec|].
  destruct (normalize_good_row _ Hgood) as (_ & H0).
  rewrite H0, Hpic. cbn [nth]. split; [reflexivity|].
  intros Hone. assert (Hsq : sqrt (/ 1.5896) * sqrt (/ 1.5896) = / 1.5896)
    by (apply sqrt_sqrt; lra).
  rewrite Hone in Hsq. lra.
Qed.

(** The transformed size is a power of two that covers twice the larger of
    the picture width and the window length. *)
Lemma frame_checks_sizes (data_len : nat) (pic_width start win_len : Z) (sh : frame_shape) :
  frame_checks data_len pic_width start win_len = Ok sh ->
  (0 < fs_win_len sh)%Z
  /\ (2 * Z.max pic_width (fs_win_len sh) <= fs_fft_size sh)%Z
  /\ fs_pic_width sh = pic_width
  /\ (3 <= slice_len (Z.to_nat (fs_fft_size sh)) None (Some pic_width))%nat.
Proof.
  unfold frame_checks.
  set (wl := if (win_len =? 0)%Z then Z.of_nat data_len else win_len).
  destruct (2 * Z.max pic_width wl <=? 0)%Z eqn:Em; [discriminate|].
  cbn [raise_if bind].
  destruct (wl =? 0)%Z eqn:E0; [discriminate|]. cbn [raise_if bind].
  destruct (wl <? 0)%Z eqn:E1; [discriminate|]. cbn [raise_if bind].
  destruct (broadcast_len _ _) as [pl|e]; [|discriminate]. cbn [bind].
  destruct (negb (assignable pl _)); [discriminate|]. cbn [raise_if bind].
  destruct (_ <? 3)%nat eqn:E3; [discriminate|]. cbn [raise_if bind].
  intros Hsh. injection Hsh as <-. unfold fs_win_len, fs_fft_size, fs_pic_width.
  apply Z.leb_gt in Em. apply Z.eqb_neq in E0. apply Z.ltb_ge in E1.
  apply Nat.ltb_ge in E3.
  assert (Hm : (1 < 2 * Z.max pic_width wl)%Z) by lia.
  apply Z.log2_up_spec in Hm.
  repeat split; try lia; try exact E3.
  apply Z.le_trans with (2 * Z.max pic_width wl)%Z; [lia | exact (proj2 Hm)].
Qed.

Lemma padded_segment_full_length (data_len : nat) (pic_width start win_len : Z)
      (sh : frame_shape) (row : list R) :
  frame_checks data_len pic_width start win_len = Ok sh ->
  length (padded_segment sh row) = Z.to_nat (fs_fft_size sh).
Proof.
  intros Hsh. destruct (frame_checks_sizes _ _ _ _ Hsh) as (Hw & Hf & _).
  rewrite padded_segment_length.
  assert (Hws : (slice_len (Z.to_nat (fs_win_len sh)) None
                           (Some (fs_last sh - fs_start sh)%Z)
                 <= Z.to_nat (fs_win_len sh))%nat).
  { unfold slice_len, slice_range. lia. }
  lia.
Qed.

(** X2.  Shape of the frame.  A frame that [correlogram_frame] returns has one
    row per input row, every row has at least three lags, and for a
    non-negative [pic_width] every row has exactly [pic_width] lags. *)
Theorem frame_shape_of_result
        (data_len : nat) (rows : list (list R)) (pic_width start win_len : Z)
        (frame : list (list R)) :
  correlogram_frame data_len rows pic_width start win_len = Ok frame ->
  length frame = length rows
  /\ Forall (fun out => (3 <= length out)%nat) frame
  /\ ((0 <= pic_width)%Z ->
      (3 <= pic_width)%Z
      /\ Forall (fun out => length out = Z.to_nat pic_width) frame).
Proof.
  intros Hrun. unfold correlogram_frame in Hrun.
  destruct (frame_checks data_len pic_width start win_len) as [sh|e] eqn:Hsh; [|discriminate].
  cbn [bind] in Hrun. injection Hrun as <-.
  destruct (frame_checks_sizes _ _ _ _ Hsh) as (Hw & Hf & Hp & H3).
  assert (Hlen : forall row,
             length (normalize_row (clipped_autocorrelation sh row))
             = slice_len (Z.to_nat (fs_fft_size sh)) None (Some pic_width)).
  { intros row. rewrite frame_row_length, (@padded_segment_full_length _ _ _ _ _ row Hsh), Hp.
    reflexivity. }
  split; [now rewrite length_map|]. split.
  - apply Forall_forall. intros out Hout. apply in_map_iff in Hout.
    destruct Hout as (row & <- & _). rewrite Hlen. exact H3.
  - intros Hpw.
    assert (Hs : slice_len (Z.to_nat (fs_fft_size sh)) None (Some pic_width)
                 = Z.to_nat pic_width).
    { unfold slice_len, slice_range, slice_bound.
      replace (pic_width <? 0)%Z with false by (symmetry; apply Z.ltb_ge; lia). lia. }
    rewrite Hs in H3. split; [lia|].
    apply Forall_forall. intros out Hout. apply in_map_iff in Hout.
    destruct Hout as (row & <- & _). now rewrite Hlen.
Qed.

Lemma frame_shape_witness :
  length [normalize_row (clipped_autocorrelation unit_sample_shape [1])] = length [[1]]
  /\ Forall (fun out => (3 <= length out)%nat)
            [normalize_row (clipped_autocorrelation unit_sample_shape [1])]
  /\ ((0 <= 3)%Z ->
      (3 <= 3)%Z
      /\ Forall (fun out => length out = Z.to_nat 3)
                [normalize_row (clipped_autocorrelation unit_sample_shape [1])]).
Proof.
  apply (@frame_shape_of_result 1 [[1]] 3 0 0
           [normalize_row (clipped_autocorrelation unit_sample_shape [1])]).
  reflexivity.
Defined.

Lemma dft_all_zero (sign : R) (f : list C) :
  Forall (fun z => z = RtoC 0) f -> Forall (fun z => z = RtoC 0) (dft sign f).
Proof.
  intros Hf. unfold dft. apply Forall_forall. intros z Hz.
  apply in_map_iff in Hz. destruct Hz as (k & <- & _).
  apply Csum_all_zero, Forall_forall. intros t Ht.
  apply in_map_iff in Ht. destruct Ht as (n & <- & _).
  assert (Hn : nth n f (RtoC 0) = RtoC 0)
    by (apply Forall_nth_default_gen; [reflexivity | exact Hf]).
  rewrite Hn. apply Cmul_0_l.
Qed.

Lemma Forall_map_eq (A B : Type) (f : A -> B) (a : A) (b : B) (l : list A) :
  f a = b -> Forall (fun x => x = a) l -> Forall (fun y => y = b) (map f l).
Proof.
  intros Hab Hl. induction Hl as [|x l -> _ IH]; simpl; constructor; auto.
Qed.

Lemma autocorrelation_all_zero (f : list R) :
  Forall (fun x => x = 0) f -> Forall (fun z => z = RtoC 0) (autocorrelation f).
Proof.
  intros Hf. unfold autocorrelation, ifft, fft.
  apply Forall_map_eq with (a := RtoC 0).
  { unfold Cscal, RtoC, Cre, Cim. simpl. f_equal; ring. }
  apply dft_all_zero.
  apply Forall_map_eq with (a := RtoC 0).
  { unfold Cmul, Cconj, RtoC, Cre, Cim. simpl. f_equal; ring. }
  apply dft_all_zero.
  apply Forall_map_eq with (a := 0); [reflexivity | exact Hf].
Qed.

Lemma Forall_firstn (A : Type) (P : A -> Prop) (n : nat) (l : list A) :
  Forall P l -> Forall P (firstn n l).
Proof.
  intros Hl. revert n. induction Hl as [|x l Hx _ IH]; intros [|n]; simpl;
    constructor; auto.
Qed.

Lemma Forall_skipn (A : Type) (P : A -> Prop) (n : nat) (l : list A) :
  Forall P l -> Forall P (skipn n l).
Proof.
  intros Hl. revert n. induction Hl as [|x l Hx Hl IH]; intros [|n]; simpl; auto.
Qed.

Lemma Forall_py_slice (A : Type) (P : A -> Prop) (lo hi : option Z) (l : list A) :
  Forall P l -> Forall P (py_slice lo hi l).
Proof.
  intros Hl. unfold py_slice. destruct (slice_range (length l) lo hi).
  now apply Forall_firstn, Forall_skipn.
Qed.

(** X3.  Silence.  A channel whose samples are all zero comes out of the frame
    builder as an all-zero row, whatever the window and the sizes are. *)
Theorem silent_channel_gives_zero_row
        (data_len : nat) (rows : list (list R)) (pic_width start win_len : Z)
        (frame : list (list R)) :
  correlogram_frame data_len rows pic_width start win_len = Ok frame ->
  Forall2 (fun row out => Forall (fun x => x = 0) row -> Forall (fun v => v = 0) out)
          rows frame.
Proof.
  intros Hrun. unfold correlogram_frame in Hrun.
  destruct (frame_checks data_len pic_width start win_len) as [sh|e]; [|discriminate].
  cbn [bind] in Hrun. injection Hrun as <-.
  apply Forall2_map_same. intros row Hrow.
  assert (Hpad : Forall (fun x => x = 0) (padded_segment sh row)).
  { unfold padded_segment. apply Forall_app. split.
    - apply Forall_forall. intros v Hv. apply in_map_iff in Hv.
      destruct Hv as ([x w] & <- & Hin). apply in_combine_l in Hin. cbn [fst snd].
      assert (Hx : x = 0).
      { exact (proj1 (Forall_forall _ _)
                     (Forall_py_slice (Some (fs_start sh)) (Some (fs_last sh)) Hrow)
                     x Hin). }
      rewrite Hx. ring.
    - apply Forall_skipn, Forall_forall. intros x Hx. now apply repeat_spec in Hx. }
  assert (Hpic : Forall (fun v => v = 0) (clipped_autocorrelation sh row)).
  { unfold clipped_autocorrelation.
    apply Forall_map_eq with (a := RtoC 0).
    - unfold RtoC, Cre. simpl. apply Rmax_left. lra.
    - apply Forall_py_slice, autocorrelation_all_zero, Hpad. }
  unfold normalize_row. apply Forall_forall. intros v Hv.
  apply in_map_iff in Hv. destruct Hv as (x & <- & Hx).
  rewrite (proj1 (Forall_forall _ _) Hpic x Hx). ring.
Qed.

Lemma silent_channel_witness :
  Forall2 (fun row out => Forall (fun x => x = 0) row -> Forall (fun v => v = 0) out)
          [[0; 0]] [normalize_row (clipped_autocorrelation
                                     {| fs_win_len := 2; fs_fft_size := 8; fs_start := 0;
                                        fs_last := 2; fs_pic_width := 3 |} [0; 0])].
Proof.
  apply (@silent_channel_gives_zero_row 2 [[0; 0]] 3 0 0). reflexivity.
Defined.

(* ================================================================== *)
(** ** The correlogram array builder on signals of sufficient length *)

Lemma broadcast_len_same (n : nat) : broadcast_len n n = Ok n.
Proof. unfold broadcast_len. now rewrite Nat.eqb_refl. Qed.

(** The frame builder accepts every start inside the signal, every
    positive window and every picture width of at least three lags. *)
Lemma frame_checks_ok (data_len : nat) (pic_width start win_len : Z) :
  (0 <= start <= Z.of_nat data_len)%Z -> (0 < win_len)%Z -> (3 <= pic_width)%Z ->
  frame_checks data_len pic_width start win_len
  = Ok {| fs_win_len := win_len;
          fs_fft_size := 2 ^ Z.log2_up (2 * Z.max pic_width win_len);
          fs_start := start;
          fs_last := Z.min (Z.of_nat data_len) (start + win_len);
          fs_pic_width := pic_width |}.
Proof.
  intros Hs Hw Hp. unfold frame_checks.
  replace (win_len =? 0)%Z with false by (symmetry; apply Z.eqb_neq; lia).
  replace (2 * Z.max pic_width win_len <=? 0)%Z with false
    by (symmetry; apply Z.leb_gt; lia).
  replace (win_len <? 0)%Z with false by (symmetry; apply Z.ltb_ge; lia).
  cbn [raise_if bind].
  assert (Hm : (1 < 2 * Z.max pic_width win_len)%Z) by lia.
  apply Z.log2_up_spec in Hm. destruct Hm as [_ Hm].
  set (F := (2 ^ Z.log2_up (2 * Z.max pic_width win_len))%Z) in *.
  replace (Z.max 0 start) with start by lia.
  set (last := Z.min (Z.of_nat data_len) (start + win_len)).
  assert (Hseg : slice_len data_len (Some start) (Some last) = Z.to_nat (last - start)).
  { unfold slice_len, slice_range, slice_bound, last.
    replace (start <? 0)%Z with false by (symmetry; apply Z.ltb_ge; lia).
    replace (Z.min (Z.of_nat data_len) (start + win_len) <? 0)%Z with false
      by (symmetry; apply Z.ltb_ge; lia).
    lia. }
  assert (Hws : slice_len (Z.to_nat win_len) None (Some (last - start)%Z)
                = Z.to_nat (last - start)).
  { unfold slice_len, slice_range, slice_bound, last.
    replace (Z.min (Z.of_nat data_len) (start + win_len) - start <? 0)%Z with false
      by (symmetry; apply Z.ltb_ge; lia).
    lia. }
  assert (Hdst : slice_len (Z.to_nat F) None (Some (last - start)%Z)
                 = Z.to_nat (last - start)).
  { unfold slice_len, slice_range, slice_bound, last.
    replace (Z.min (Z.of_nat data_len) (start + win_len) - start <? 0)%Z with false
      by (symmetry; apply Z.ltb_ge; lia).
    lia. }
  assert (Hpic : slice_len (Z.to_nat F) None (Some pic_width) = Z.to_nat pic_width).
  { unfold slice_len, slice_range, slice_bound.
    replace (pic_width <? 0)%Z with false by (symmetry; apply Z.ltb_ge; lia).
    lia. }
  rewrite Hseg, Hws, Hdst, Hpic, broadcast_len_same. cbn [bind].
  unfold assignable. rewrite Nat.eqb_refl. cbn [orb negb raise_if bind].
  replace (Z.to_nat pic_width <? 3)%nat with false
    by (symmetry; apply Nat.ltb_ge; lia).
  replace (win_len =? 0)%Z with false by (symmetry; apply Z.eqb_neq; lia).
  reflexivity.
Qed.

Section LongSignal.
Variable data_len : nat.
Variable rows : list (list R).
Variable sampling_rate : Q.
Variables frame_rate width : Z.

Let frame_increment := py_int (sampling_rate / inject_Z frame_rate)%Q.
Let frame_count := ((Z.of_nat data_len - width) / frame_increment + 1)%Z.

Hypothesis rate_nonzero : frame_rate <> 0%Z.
Hypothesis increment_pos : (0 < frame_increment)%Z.
Hypothesis width_fits : (3 <= width <= Z.of_nat data_len)%Z.

Lemma long_signal_frames :
  correlogram_array data_len rows sampling_rate frame_rate width
  = Ok (map (fun i =>
               map (fun row =>
                      normalize_row
                        (clipped_autocorrelation
                           {| fs_win_len := frame_increment * 4;
                              fs_fft_size :=
                                2 ^ Z.log2_up (2 * Z.max width (frame_increment * 4));
                              fs_start := i * frame_increment;
                              fs_last := Z.min (Z.of_nat data_len)
                                               (i * frame_increment + frame_increment * 4);
                              fs_pic_width := width |} row))
                   rows)
            (py_range frame_count)).
Proof.
  unfold correlogram_array. fold frame_increment.
  replace (frame_rate =? 0)%Z with false by (symmetry; apply Z.eqb_neq; exact rate_nonzero).
  replace (frame_increment =? 0)%Z with false by (symmetry; apply Z.eqb_neq; lia).
  cbn [raise_if bind].
  rewrite Z.quot_div_nonneg by lia. fold frame_count.
  assert (Hq : (0 <= (Z.of_nat data_len - width) / frame_increment)%Z)
    by (apply Z.div_pos; lia).
  erewrite mapM_map_ok.
  - cbn [bind].
    assert (Hne : py_range frame_count <> []).
    { unfold py_range, frame_count.
      replace (Z.to_nat ((Z.of_nat data_len - width) / frame_increment + 1))
        with (S (Z.to_nat ((Z.of_nat data_len - width) / frame_increment))) by lia.
      discriminate. }
    destruct (py_range frame_count) as [|i l]; [contradiction|]. reflexivity.
  - intros i Hi. unfold py_range in Hi. apply in_map_iff in Hi.
    destruct Hi as (k & <- & Hk). apply in_seq in Hk.
    unfold correlogram_frame. rewrite frame_checks_ok; [reflexivity | | lia | lia].
    assert (Hk' : (Z.of_nat k <= (Z.of_nat data_len - width) / frame_increment)%Z)
      by (unfold frame_count in Hk; lia).
    assert (Hmul : (frame_increment * ((Z.of_nat data_len - width) / frame_increment)
                    <= Z.of_nat data_len - width)%Z)
      by (apply Z.mul_div_le; lia).
    nia.
Qed.

End LongSignal.

(** X4.  Frame count.  For a signal at least as long as the width, a width of
    at least three lags and a positive frame increment, the array builder
    returns, without error, exactly [floor((T - width)/frame_increment) + 1]
    frames; frame [i] is the frame builder's result at start
    [i * frame_increment] with a window of four frame increments. *)
Theorem long_signal_frame_count
        (data_len : nat) (rows : list (list R)) (sampling_rate : Q) (frame_rate width : Z) :
  frame_rate <> 0%Z ->
  (0 < py_int (sampling_rate / inject_Z frame_rate)%Q)%Z ->
  (3 <= width <= Z.of_nat data_len)%Z ->
  exists movie,
    correlogram_array data_len rows sampling_rate frame_rate width = Ok movie
    /\ Z.of_nat (length movie)
       = ((Z.of_nat data_len - width) / py_int (sampling_rate / inject_Z frame_rate)%Q + 1)%Z
    /\ forall i, (i < length movie)%nat ->
         correlogram_frame data_len rows width
                           (Z.of_nat i * py_int (sampling_rate / inject_Z frame_rate)%Q)
                           (py_int (sampling_rate / inject_Z frame_rate)%Q * 4)
         = Ok (nth i movie []).
Proof.
  intros Hrate Hinc Hwidth.
  set (inc := py_int (sampling_rate / inject_Z frame_rate)%Q) in *.
  assert (Hq : (0 <= (Z.of_nat data_len - width) / inc)%Z) by (apply Z.div_pos; lia).
  eexists. split; [apply long_signal_frames; assumption|].
  fold inc. split.
  - rewrite length_map. unfold py_range. rewrite length_map, length_seq. lia.
  - intros i Hi. rewrite length_map in Hi. unfold py_range in *.
    rewrite length_map, length_seq in Hi.
    rewrite map_map.
    rewrite nth_map_seq by exact Hi.
    unfold correlogram_frame. rewrite frame_checks_ok; [reflexivity | | lia | lia].
    assert (Hmul : (inc * ((Z.of_nat data_len - width) / inc)
                    <= Z.of_nat data_len - width)%Z)
      by (apply Z.mul_div_le; lia).
    nia.
Qed.

Lemma long_signal_witness :
  exists movie,
    correlogram_array 4000 [repeat 1%R 4000] 16000 12 256 = Ok movie
    /\ Z.of_nat (length movie)
       = ((Z.of_nat 4000 - 256) / py_int (16000 / inject_Z 12)%Q + 1)%Z
    /\ forall i, (i < length movie)%nat ->
         correlogram_frame 4000 [repeat 1%R 4000] 256
                           (Z.of_nat i * py_int (16000 / inject_Z 12)%Q)
                           (py_int (16000 / inject_Z 12)%Q * 4)
         = Ok (nth i movie []).
Proof.
  apply (@long_signal_frame_count 4000 [repeat 1%R 4000] 16000 12 256).
  - discriminate.
  - reflexivity.
  - split; [discriminate|]. apply Z.leb_le. vm_compute. reflexivity.
Defined.

Lemma mapM_raise (A B : Type) (f : A -> result B) (l : list A) (e : exn) :
  mapM f l = Raise e -> exists a, In a l /\ f a = Raise e.
Proof.
  induction l as [|a l IH]; simpl; [discriminate|].
  destruct (f a) as [b|e'] eqn:Ef; simpl.
  - destruct (mapM f l) as [bs|e'']; simpl; [discriminate|].
    intros He. injection He as ->. destruct (IH eq_refl) as (a' & Hin & Ha').
    exists a'. split; [now right | exact Ha'].
  - intros He. injection He as ->. exists a. split; [now left | exact Ef].
Qed.

(** Inside the frame builder only [math.pi/win_len] can divide by zero,
    and only for an empty signal with the default window. *)
Lemma frame_checks_zero_division (data_len : nat) (pic_width start win_len : Z) :
  frame_checks data_len pic_width start win_len = Raise ZeroDivisionError ->
  win_len = 0%Z /\ data_len = 0%nat.
Proof.
  unfold frame_checks.
  destruct (win_len =? 0)%Z eqn:Ew.
  - apply Z.eqb_eq in Ew.
    destruct (2 * Z.max pic_width (Z.of_nat data_len) <=? 0)%Z; [discriminate|].
    cbn [raise_if bind].
    destruct (Z.of_nat data_len =? 0)%Z eqn:Ed.
    + apply Z.eqb_eq in Ed. intros _. split; [exact Ew | lia].
    + cbn [raise_if bind].
      destruct (Z.of_nat data_len <? 0)%Z; [discriminate|]. cbn [raise_if bind].
      destruct (broadcast_len _ _) as [pl|e] eqn:Eb; cbn [bind].
      * destruct (negb (assignable pl _)); [discriminate|]. cbn [raise_if bind].
        destruct (_ <? 3)%nat; discriminate.
      * unfold broadcast_len in Eb. repeat destruct (_ =? _)%nat; try discriminate.
        injection Eb as <-. discriminate.
  - destruct (2 * Z.max pic_width win_len <=? 0)%Z; [discriminate|].
    cbn [raise_if bind]. rewrite Ew. cbn [raise_if bind].
    destruct (win_len <? 0)%Z; [discriminate|]. cbn [raise_if bind].
    destruct (broadcast_len _ _) as [pl|e] eqn:Eb; cbn [bind].
    + destruct (negb (assignable pl _)); [discriminate|]. cbn [raise_if bind].
      destruct (_ <? 3)%nat; discriminate.
    + unfold broadcast_len in Eb. repeat destruct (_ =? _)%nat; try discriminate.
      injection Eb as <-. discriminate.
Qed.

Lemma py_int_below_one (sampling_rate : Q) (frame_rate : Z) :
  (0 <= sampling_rate)%Q -> (sampling_rate < inject_Z frame_rate)%Q ->
  py_int (sampling_rate / inject_Z frame_rate)%Q = 0%Z.
Proof.
  intros H0 H1. destruct sampling_rate as [n d].
  unfold Qle, Qlt in *. simpl in H0, H1.
  destruct frame_rate as [|p|p]; [lia | | lia].
  unfold py_int, Qdiv, Qinv, Qmult, inject_Z. simpl.
  apply Z.quot_small. lia.
Qed.

(** X5.  Division by zero.  The array builder raises [ZeroDivisionError]
    exactly when the frame rate is zero or the frame increment
    [int(sampling_rate/frame_rate)] is zero, which happens in particular for
    every sampling rate below the frame rate. *)
Theorem array_zero_division
        (data_len : nat) (rows : list (list R)) (sampling_rate : Q) (frame_rate width : Z) :
  (correlogram_array data_len rows sampling_rate frame_rate width = Raise ZeroDivisionError
   <-> frame_rate = 0%Z \/ py_int (sampling_rate / inject_Z frame_rate)%Q = 0%Z)
  /\ ((0 <= sampling_rate)%Q /\ (sampling_rate < inject_Z frame_rate)%Q ->
      correlogram_array data_len rows sampling_rate frame_rate width
      = Raise ZeroDivisionError).
Proof.
  assert (Hiff : correlogram_array data_len rows sampling_rate frame_rate width
                 = Raise ZeroDivisionError
                 <-> frame_rate = 0%Z \/ py_int (sampling_rate / inject_Z frame_rate)%Q = 0%Z).
  { unfold correlogram_array.
    destruct (frame_rate =? 0)%Z eqn:Er.
    - apply Z.eqb_eq in Er. split; [now left | reflexivity].
    - apply Z.eqb_neq in Er. cbn [raise_if bind].
      destruct (py_int (sampling_rate / inject_Z frame_rate)%Q =? 0)%Z eqn:Ei.
      + apply Z.eqb_eq in Ei. split; [now right | reflexivity].
      + apply Z.eqb_neq in Ei. cbn [raise_if bind]. split.
        * intros Hrun. exfalso.
          match type of Hrun with
          | bind (mapM ?f ?l) _ = _ => destruct (mapM f l) as [movie|e] eqn:Hm
          end; cbn [bind] in Hrun.
          -- destruct movie; discriminate.
          -- injection Hrun as ->. apply mapM_raise in Hm.
             destruct Hm as (i & _ & Hi). unfold correlogram_frame in Hi.
             destruct (frame_checks _ _ _ _) as [sh|e] eqn:Hc; [discriminate|].
             cbn [bind] in Hi. injection Hi as ->.
             apply frame_checks_zero_division in Hc. lia.
        * intros [H | H]; contradiction. }
  split; [exact Hiff|].
  intros [H0 H1]. apply Hiff. right. now apply py_int_below_one.
Qed.

(* ================================================================== *)
(** ** The pitch extractor: where a pitch can be reported *)

Open Scope Q_scope.

Lemma slice_fill_length (A : Type) (lo hi : option Z) (z : A) (l : list A) :
  length (slice_fill lo hi z l) = length l.
Proof. rewrite (slice_fill_as_map z z). now rewrite length_map, length_seq. Qed.

Lemma slice_fill_nth (A : Type) (d z : A) (lo hi : option Z) (l : list A) (i : nat) :
  (i < length l)%nat ->
  nth i (slice_fill lo hi z l) d
  = if (fst (slice_range (length l) lo hi) <=? i)%nat
       && (i <? snd (slice_range (length l) lo hi))%nat
    then z else nth i l d.
Proof. intros Hi. rewrite (slice_fill_as_map d z). now rewrite nth_map_seq. Qed.

Lemma argwhere_from_head (l : list Q) :
  forall s v rest,
    argwhere_from s l = v :: rest ->
    (s <= v)%nat /\ (v - s < length l)%nat /\ 0 < nth (v - s) l 0.
Proof.
  induction l as [|x l IH]; intros s v rest; simpl; [discriminate|].
  destruct (Qltb 0 x) eqn:Ex.
  - intros E. injection E as <- _. rewrite Nat.sub_diag. simpl.
    repeat split; try lia. now apply Qltb_lt.
  - intros E. apply IH in E. destruct E as (H1 & H2 & H3).
    replace (v - s)%nat with (S (v - S s)) by lia. simpl. repeat split; try lia.
    exact H3.
Qed.

(** The valley search never returns an index below the smoothing window:
    the first 16 differences are zeroed before the search. *)
Lemma first_valley_at_least_16 (width : Z) (summary : list Q) (valley : nat) :
  first_valley width summary = Ok valley -> (16 <= valley)%nat.
Proof.
  unfold first_valley.
  destruct (lfilter _ _ _) as [sumfilt|e]; [|discriminate]. cbn [bind].
  destruct (tensor_sub _ _) as [sumdif|e]; [|discriminate]. cbn [bind].
  intros Hv. apply py_index_0 in Hv. destruct Hv as (rest & Hv).
  unfold argwhere_positive in Hv. apply argwhere_from_head in Hv.
  destruct Hv as (_ & Hlen & Hpos). rewrite Nat.sub_0_r in Hlen, Hpos.
  rewrite slice_fill_length in Hlen.
  rewrite slice_fill_nth in Hpos by exact Hlen.
  destruct (Nat.lt_ge_cases valley 16) as [Hlt | Hge]; [|exact Hge].
  exfalso.
  assert (Hin : ((fst (slice_range (length sumdif) None
                                   (Some (Z.of_nat window_length))) <=? valley)%nat
                 && (valley <? snd (slice_range (length sumdif) None
                                                (Some (Z.of_nat window_length))))%nat)
                = true).
  { unfold slice_range, window_length. cbn [fst snd].
    rewrite slice_bound_nonneg by lia.
    apply andb_true_iff. split; [apply Nat.leb_le | apply Nat.ltb_lt]; lia. }
  rewrite Hin in Hpos. exact (Qlt_irrefl 0 Hpos).
Qed.










(* ================================================================== *)
(** ** The pitch extractor on silence *)

Section FilterLength.
Context {A : Type} `{Num A}.

Lemma lfilter_loop_length (a b xs : list A) :
  forall xh yh, length (lfilter_loop a b xs xh yh) = length xs.
Proof. induction xs as [|x xs IH]; intros xh yh; simpl; [reflexivity | now rewrite IH]. Qed.

Lemma lfilter_channel_length (a b xs : list A) :
  length (lfilter_channel a b xs) = length xs.
Proof. unfold lfilter_channel. apply lfilter_loop_length. Qed.

End FilterLength.

Lemma dot_ones_silent (n : nat) (hs : list Q) :
  Forall (fun q => q == 0) hs -> dot (repeat 1 n) hs == 0.
Proof.
  revert hs. induction n as [|n IH]; intros hs Hh; [reflexivity|].
  destruct Hh as [|h hs Hh0 Hh]; [destruct n; reflexivity|].
  destruct n as [|n].
  - cbn [repeat dot nmul Num_Q]. rewrite Hh0. apply Qmult_0_r.
  - change (repeat 1 (S (S n))) with (1 :: repeat 1 (S n)).
    change (dot (1 :: repeat 1 (S n)) (h :: hs))
      with (1 * h + dot (repeat 1 (S n)) hs).
    rewrite (IH hs Hh), Hh0. reflexivity.
Qed.

Lemma dot_zeros (n : nat) (hs : list Q) : dot (repeat 0 n) hs == 0.
Proof.
  revert hs. induction n as [|n IH]; intros hs; [reflexivity|].
  destruct hs as [|h hs]; [destruct n; reflexivity|].
  destruct n as [|n].
  - cbn [repeat dot nmul Num_Q]. apply Qmult_0_l.
  - change (repeat 0 (S (S n))) with (0 :: repeat 0 (S n)).
    change (dot (0 :: repeat 0 (S n)) (h :: hs))
      with (0 * h + dot (repeat 0 (S n)) hs).
    rewrite (IH hs). apply Qmult_0_l.
Qed.

(** The 16-tap moving sum of a silent summary is silent. *)
Lemma moving_sum_silent (xs : list Q) :
  forall xh yh,
    Forall (fun q => q == 0) xs -> Forall (fun q => q == 0) xh ->
    Forall (fun q => q == 0)
           (lfilter_loop (1 :: repeat 0 15) (repeat 1 16) xs xh yh).
Proof.
  induction xs as [|x xs IH]; intros xh yh Hx Hh; [constructor|].
  inversion Hx as [|? ? Hx0 Hx']; subst.
  cbn [lfilter_loop]. constructor.
  - cbn [tl hd nsub ndiv Num_Q].
    rewrite dot_ones_silent by (constructor; assumption).
    rewrite dot_zeros. reflexivity.
  - apply IH; [exact Hx' | constructor; assumption].
Qed.

Lemma argwhere_from_silent (l : list Q) :
  Forall (fun q => q == 0) l -> forall s, argwhere_from s l = [].
Proof.
  induction 1 as [|x l Hx _ IH]; intros s; simpl; [reflexivity|].
  replace (Qltb 0 x) with false; [apply IH|].
  symmetry. destruct (Qltb 0 x) eqn:E; [|reflexivity].
  apply Qltb_lt in E. rewrite Hx in E. exact (False_ind _ (Qlt_irrefl 0 E)).
Qed.

Lemma Forall_silent_combine_sub (u v : list Q) :
  Forall (fun q => q == 0) u -> Forall (fun q => q == 0) v ->
  Forall (fun q => q == 0) (map (fun p => fst p - snd p) (combine u v)).
Proof.
  intros Hu. revert v. induction Hu as [|x u Hx _ IH]; intros v Hv; [constructor|].
  destruct Hv as [|y v Hy Hv]; [constructor|].
  simpl. constructor; [rewrite Hx, Hy; reflexivity | now apply IH].
Qed.

(** On a tensor whose last dimension is [width], the body of the loop can
    raise nothing but an [IndexError]. *)
Lemma pitch_frame_raises_index_error (num_times : nat) (sr : Q) (drop_low drop_high : Z)
      (frame : list (list Q)) (e : exn) :
  pitch_frame num_times (Z.of_nat num_times) sr drop_low drop_high frame = Raise e ->
  e = IndexError.
Proof.
  unfold pitch_frame.
  destruct (py_index (channel_sum num_times frame) 0) as [zero_lag|e0] eqn:Hz; cbn [bind].
  2:{ intros E. injection E as <-. unfold py_index in Hz. simpl in Hz.
      destruct (channel_sum num_times frame); simpl in Hz; [|discriminate].
      now injection Hz as <-. }
  assert (Hlen : length (channel_sum num_times frame) = num_times)
    by (unfold channel_sum; now rewrite length_map, length_seq).
  destruct (first_valley _ _) as [valley|e1] eqn:Hv; cbn [bind]; [discriminate|].
  intros E. injection E as <-. unfold first_valley in Hv.
  unfold lfilter in Hv. cbn [length repeat window_length Nat.sub Nat.eqb negb raise_if bind] in Hv.
  set (sumfilt := lfilter_channel _ _ _) in Hv.
  assert (Hsf : length sumfilt = num_times).
  { unfold sumfilt. now rewrite lfilter_channel_length. }
  unfold tensor_sub in Hv. rewrite !py_slice_length, Hsf in Hv.
  assert (Hb : slice_len num_times (Some 1%Z) (Some (Z.of_nat num_times))
               = slice_len num_times None (Some (Z.of_nat num_times - 1)%Z)).
  { unfold slice_len, slice_range, slice_bound.
    replace (1 <? 0)%Z with false by reflexivity.
    replace (Z.of_nat num_times <? 0)%Z with false by (symmetry; apply Z.ltb_ge; lia).
    destruct (Z.of_nat num_times - 1 <? 0)%Z eqn:E; [apply Z.ltb_lt in E | apply Z.ltb_ge in E];
      lia. }
  rewrite Hb, broadcast_len_same in Hv. cbn [bind] in Hv.
  unfold py_index in Hv. simpl in Hv.
  destruct (argwhere_positive _); simpl in Hv; [|discriminate].
  now injection Hv as <-.
Qed.

Lemma mapM_raise_uniform (A B : Type) (f : A -> result B) (l : list A) (e0 : exn) :
  (forall a e, In a l -> f a = Raise e -> e = e0) ->
  (exists a, In a l /\ is_ok (f a) = false) ->
  mapM f l = Raise e0.
Proof.
  induction l as [|x l IH]; intros Hall (a & Hin & Ha); [contradiction|].
  simpl. destruct (f x) as [y|e] eqn:Ef.
  - simpl. destruct Hin as [-> | Hin]; [rewrite Ef in Ha; discriminate|].
    rewrite IH; [reflexivity | | now exists a].
    intros a' e' Hin' Hf'. apply (Hall a' e'); [now right | exact Hf'].
  - simpl. f_equal. apply (Hall x e); [now left | exact Ef].
Qed.

Lemma channel_sum_silent (num_times : nat) (frame : list (list Q)) :
  Forall (fun ch => Forall (fun q => q == 0) ch) frame ->
  Forall (fun q => q == 0) (channel_sum num_times frame).
Proof.
  intros Hf. unfold channel_sum. apply Forall_forall. intros q Hq.
  apply in_map_iff in Hq. destruct Hq as (t & <- & _).
  induction Hf as [|ch frame Hch _ IH]; simpl; [reflexivity|].
  rewrite IH.
  assert (H0 : nth t ch 0 == 0)
    by (apply Forall_nth_default with (P := fun q => q == 0); [reflexivity | exact Hch]).
  rewrite H0. reflexivity.
Qed.

Lemma first_valley_silent (summary : list Q) :
  Forall (fun q => q == 0) summary ->
  first_valley (Z.of_nat (length summary)) summary = Raise IndexError.
Proof.
  intros Hs. unfold first_valley, lfilter.
  cbn [length repeat window_length Nat.sub Nat.eqb negb raise_if bind].
  set (sumfilt := lfilter_channel _ _ _).
  assert (Hsf : length sumfilt = length summary)
    by (unfold sumfilt; now rewrite lfilter_channel_length).
  assert (Hsil : Forall (fun q => q == 0) sumfilt).
  { unfold sumfilt, lfilter_channel. apply moving_sum_silent; [exact Hs|].
    cbn [length repeat Nat.sub nzero Num_Q]. repeat constructor; reflexivity. }
  unfold tensor_sub. rewrite !py_slice_length, Hsf.
  assert (Hb : slice_len (length summary) (Some 1%Z) (Some (Z.of_nat (length summary)))
               = slice_len (length summary) None (Some (Z.of_nat (length summary) - 1)%Z)).
  { unfold slice_len, slice_range, slice_bound.
    replace (1 <? 0)%Z with false by reflexivity.
    replace (Z.of_nat (length summary) <? 0)%Z with false
      by (symmetry; apply Z.ltb_ge; lia).
    destruct (Z.of_nat (length summary) - 1 <? 0)%Z eqn:E;
      [apply Z.ltb_lt in E | apply Z.ltb_ge in E]; lia. }
  rewrite Hb, broadcast_len_same, Nat.eqb_refl. cbn [bind].
  unfold argwhere_positive. rewrite argwhere_from_silent; [reflexivity|].
  apply slice_fill_Forall; [reflexivity|].
  apply Forall_silent_combine_sub; apply Forall_py_slice; exact Hsil.
Qed.

(** X7.  Silence.  On a tensor whose last dimension is [width], with a
    non-zero [high_pitch], a movie that holds a frame of zeros makes
    [correlogram_pitch] raise an [IndexError]: no pitch/salience pair is
    returned for any frame. *)
Theorem silent_frame_raises_index_error
        (num_times : nat) (frames : list (list (list Q))) (sr low_pitch high_pitch : Q) :
  ~ high_pitch == 0 ->
  (exists frame,
      In frame frames /\ Forall (fun ch => Forall (fun q => q == 0) ch) frame) ->
  correlogram_pitch num_times frames (Z.of_nat num_times) sr low_pitch high_pitch
  = Raise IndexError.
Proof.
  intros Hhp (frame & Hin & Hsil). unfold correlogram_pitch.
  replace (Qeq_bool high_pitch 0) with false.
  2:{ symmetry. destruct (Qeq_bool high_pitch 0) eqn:E; [|reflexivity].
      apply Qeq_bool_iff in E. contradiction. }
  cbn [raise_if bind]. erewrite mapM_raise_uniform; [reflexivity | |].
  - intros a e _ Ha. eapply pitch_frame_raises_index_error. exact Ha.
  - exists frame. split; [exact Hin|]. unfold pitch_frame.
    destruct (py_index (channel_sum num_times frame) 0); cbn [bind]; [|reflexivity].
    assert (Hlen : length (channel_sum num_times frame) = num_times)
      by (unfold channel_sum; now rewrite length_map, length_seq).
    rewrite <- Hlen at 1.
    rewrite first_valley_silent by (apply channel_sum_silent; exact Hsil).
    reflexivity.
Qed.

Lemma silent_frame_witness :
  correlogram_pitch 256 silent_movie (Z.of_nat 256) 22254.54 0 20000 = Raise IndexError.
Proof.
  apply (@silent_frame_raises_index_error 256 silent_movie 22254.54 0 20000).
  - discriminate.
  - exists (hd [] silent_movie). split; [now left|].
    repeat constructor; apply Forall_forall; intros q Hq; apply repeat_spec in Hq;
      subst; reflexivity.
Defined.

Close Scope Q_scope.

(* ================================================================== *)
(** ** The filterbank executor: shape of the output *)

Lemma mapM_Forall2 (A B : Type) (f : A -> result B) (l : list A) (bs : list B) :
  mapM f l = Ok bs -> Forall2 (fun a b => f a = Ok b) l bs.
Proof.
  revert bs. induction l as [|a l IH]; intros bs Hm; simpl in Hm.
  - injection Hm as <-. constructor.
  - destruct (f a) as [b|e] eqn:Ef; [|discriminate]. cbn [bind] in Hm.
    destruct (mapM f l) as [bs'|e]; [|discriminate]. cbn [bind] in Hm.
    injection Hm as <-. constructor; [exact Ef | now apply IH].
Qed.

Lemma mapM_total (A B : Type) (P : A -> Prop) (Q : A -> B -> Prop)
      (f : A -> result B) (l : list A) :
  Forall P l ->
  (forall a, P a -> exists b, f a = Ok b /\ Q a b) ->
  exists bs, mapM f l = Ok bs /\ Forall2 Q l bs.
Proof.
  intros Hl Hf. induction Hl as [|a l Ha _ IH].
  - exists []. split; [reflexivity | constructor].
  - destruct (Hf a Ha) as (b & Eb & Qb). destruct IH as (bs & Ebs & Qbs).
    exists (b :: bs). simpl. rewrite Eb, Ebs. split; [reflexivity | now constructor].
Qed.

Lemma Forall2_length_eq (A B : Type) (P : A -> B -> Prop) (l : list A) (l' : list B) :
  Forall2 P l l' -> length l' = length l.
Proof. induction 1; simpl; congruence. Qed.

Section ShapeFacts.
Context {A : Type} `{Num A}.

Lemma py_index_column (row : list A) (j : Z) :
  (4 <= length row)%nat -> (-1 <= j <= 3)%Z -> exists x, py_index row j = Ok x.
Proof.
  intros Hlen Hj. unfold py_index. cbv zeta.
  destruct (j <? 0)%Z eqn:Ej.
  - apply Z.ltb_lt in Ej. assert (j = (-1)%Z) as -> by lia.
    replace (-1 + Z.of_nat (length row) <? 0)%Z with false
      by (symmetry; apply Z.ltb_ge; lia).
    destruct (nth_error row (Z.to_nat (-1 + Z.of_nat (length row)))) as [x|] eqn:E;
      [now exists x|].
    apply nth_error_None in E. lia.
  - rewrite Ej. apply Z.ltb_ge in Ej.
    destruct (nth_error row (Z.to_nat j)) as [x|] eqn:E; [now exists x|].
    apply nth_error_None in E. lia.
Qed.

Lemma last_axis_shape (sos : list (list (list A))) (j : Z) :
  Forall (fun ch => Forall (fun row => (4 <= length row)%nat) ch) sos ->
  (-1 <= j <= 3)%Z ->
  exists cols, last_axis sos j = Ok cols
               /\ Forall2 (fun ch col => length col = length ch) sos cols.
Proof.
  intros Hsos Hj. unfold last_axis.
  apply mapM_total with (P := fun ch => Forall (fun row => (4 <= length row)%nat) ch);
    [exact Hsos|].
  intros ch Hch.
  destruct (@mapM_total _ _ (fun row => (4 <= length row)%nat) (fun _ _ => True)
                        (fun row => py_index row j) ch Hch) as (col & Ecol & Hcol).
  { intros row Hrow. destruct (py_index_column row Hrow Hj) as (x & Ex). now exists x. }
  exists col. split; [exact Ecol | exact (Forall2_length_eq Hcol)].
Qed.

Lemma zip_filters_shape (time : nat) (ws a_coeffs b_coeffs : list (list A)) :
  Forall (fun w => length w = time) ws ->
  length a_coeffs = length ws ->
  Forall2 (fun a b => length a = length b) a_coeffs b_coeffs ->
  exists ys, zip_filters ws a_coeffs b_coeffs = Ok ys
             /\ length ys = length ws /\ Forall (fun y => length y = time) ys.
Proof.
  intros Hws Hlen Hab. revert ws Hws Hlen.
  induction Hab as [|a b a_coeffs b_coeffs Eab _ IH]; intros ws Hws Hlen.
  - destruct ws; [|discriminate]. exists []. repeat split; constructor.
  - destruct ws as [|w ws]; [discriminate|].
    inversion Hws as [|? ? Hw Hws']; subst. simpl in Hlen.
    destruct (IH ws Hws' ltac:(lia)) as (ys & Eys & Lys & Tys).
    exists (lfilter_channel a b w :: ys). simpl. unfold lfilter.
    rewrite Eab, Nat.eqb_refl. cbn [negb raise_if bind]. rewrite Eys. cbn [bind].
    repeat split; [simpl; congruence|].
    constructor; [apply lfilter_channel_length | exact Tys].
Qed.

Lemma lfilter_batching_shape (batch channels time : nat)
      (waveform : list (list (list A))) (a_coeffs b_coeffs : list (list A)) :
  has_shape batch channels time waveform ->
  length a_coeffs = channels ->
  Forall2 (fun a b => length a = length b) a_coeffs b_coeffs ->
  exists y, lfilter_batching waveform a_coeffs b_coeffs = Ok y
            /\ has_shape batch channels time y.
Proof.
  intros [Hb Hw] Ha Hab. unfold lfilter_batching.
  destruct (@mapM_total _ _
              (fun ws : list (list A) =>
                 length ws = channels /\ Forall (fun ch => length ch = time) ws)
              (fun _ ys => length ys = channels /\ Forall (fun ch => length ch = time) ys)
              (fun ws => zip_filters ws a_coeffs b_coeffs) waveform Hw)
    as (y & Ey & Hy).
  { intros ws [Hn Ht].
    destruct (@zip_filters_shape time ws a_coeffs b_coeffs Ht ltac:(congruence) Hab)
      as (ys & Eys & Lys & Tys).
    exists ys. repeat split; [exact Eys | congruence | exact Tys]. }
  exists y. split; [exact Ey|]. split.
  - rewrite (Forall2_length_eq Hy). exact Hb.
  - clear - Hy. induction Hy; constructor; assumption.
Qed.

Lemma sos_columns_agree (sos : list (list (list A))) (a_coeffs b_coeffs : list (list A)) :
  Forall2 (fun ch col => length col = length ch) sos a_coeffs ->
  Forall2 (fun ch col => length col = length ch) sos b_coeffs ->
  Forall2 (fun a b => length a = length b) a_coeffs b_coeffs.
Proof.
  intros Ha. revert b_coeffs. induction Ha as [|ch a sos a_coeffs Ea _ IH];
    intros b_coeffs Hb; inversion Hb; subst; constructor; [congruence | now apply IH].
Qed.

Lemma forward_stage_shape (sos : list (list (list A))) (batch time : nat)
      (y : list (list (list A))) (j : Z) :
  Forall (fun ch => Forall (fun row => (4 <= length row)%nat) ch) sos ->
  (0 <= j <= 2)%Z ->
  has_shape batch (length sos) time y ->
  exists y', forward_stage sos (Ok y) j = Ok y' /\ has_shape batch (length sos) time y'.
Proof.
  intros Hsos Hj Hy. unfold forward_stage. cbn [bind].
  destruct (@last_axis_shape sos (-1) Hsos ltac:(lia)) as (a & Ea & Ha).
  destruct (@last_axis_shape sos (j + 1) Hsos ltac:(lia)) as (b & Eb & Hb).
  rewrite Ea, Eb. cbn [bind].
  apply lfilter_batching_shape;
    [exact Hy | exact (Forall2_length_eq Ha) | exact (sos_columns_agree Ha Hb)].
Qed.

(** X9.  Shape of the filterbank output.  On a bank of [n] channels whose
    coefficient tensor holds [n] channels with at least four columns in
    every row, [forward] accepts every input of rank at least two with more
    than one sample per row, and returns a tensor of shape
    (batch, num_channels, time): one output row of [time] samples per
    channel and per input row. *)
Theorem forward_output_shape (self : ErbFilterBank A) (n time : nat)
        (rows : list (list A)) :
  num_channels self = NumChannels (Z.of_nat n) ->
  length (sos self) = n ->
  Forall (fun ch => Forall (fun row => (4 <= length row)%nat) ch) (sos self) ->
  (1 < time)%nat ->
  Forall (fun row => length row = time) rows ->
  exists y, forward self (SignalN time rows) = Ok y
            /\ has_shape (length rows) n time y.
Proof.
  intros Hn Hlen Hsos Ht Hrows. unfold forward. rewrite Hn.
  replace (time <=? 1)%nat with false by (symmetry; apply Nat.leb_gt; lia).
  cbn [raise_if bind]. unfold tile_channels.
  replace (Z.of_nat n <? 0)%Z with false by (symmetry; apply Z.ltb_ge; lia).
  rewrite Nat2Z.id. cbn [bind].
  destruct (@last_axis_shape (sos self) (-1) Hsos ltac:(lia)) as (a & Ea & Ha).
  destruct (@last_axis_shape (sos self) 0 Hsos ltac:(lia)) as (b & Eb & Hb).
  rewrite Ea, Eb. cbn [bind].
  assert (Htiled : has_shape (length rows) (length (sos self)) time
                             (map (fun row => repeat row n) rows)).
  { split; [apply length_map|]. apply Forall_forall. intros ws Hin.
    apply in_map_iff in Hin. destruct Hin as (row & <- & Hin).
    split; [rewrite repeat_length; congruence|].
    apply Forall_forall. intros ch Hch. apply repeat_spec in Hch. subst ch.
    exact (proj1 (Forall_forall _ _) Hrows row Hin). }
  destruct (@lfilter_batching_shape _ _ _ _ a b Htiled (Forall2_length_eq Ha)
                                    (sos_columns_agree Ha Hb)) as (y0 & E0 & H0).
  rewrite E0. change (py_range 3) with [0%Z; 1%Z; 2%Z]. cbn [fold_left].
  destruct (@forward_stage_shape (sos self) _ time y0 0 Hsos ltac:(lia) H0)
    as (y1 & E1 & H1).
  rewrite E1.
  destruct (@forward_stage_shape (sos self) _ time y1 1 Hsos ltac:(lia) H1)
    as (y2 & E2 & H2).
  rewrite E2.
  destruct (@forward_stage_shape (sos self) _ time y2 2 Hsos ltac:(lia) H2)
    as (y3 & E3 & H3).
  rewrite E3. exists y3. split; [reflexivity|]. rewrite <- Hlen. exact H3.
Qed.

End ShapeFacts.

Lemma forward_shape_witness :
  exists y, forward delay_bank (SignalN 9 [impulse9; impulse9]) = Ok y
            /\ has_shape 2 1 9 y.
Proof.
  apply (@forward_output_shape Q Num_Q delay_bank 1 9 [impulse9; impulse9]).
  - reflexivity.
  - reflexivity.
  - repeat constructor.
  - lia.
  - repeat constructor.
Defined.

(* ================================================================== *)
(** ** The constructor on valid arguments *)

Lemma erb_point_above_offset (low_freq high_freq : R) (n : Z) (lh ll : R) (k : Z) :
  0 < high_freq + ear_q * min_bw ->
  - (ear_q * min_bw) < erb_point low_freq high_freq n lh ll k.
Proof.
  intros Hh. unfold erb_point.
  assert (He := exp_pos (IZR k * (- lh + ll) / IZR n)). nra.
Qed.

Lemma pole_b_pos (cf : R) : - (ear_q * min_bw) < cf -> 0 < pole_b cf.
Proof.
  intros Hcf. unfold pole_b, erb_bw. assert (Hpi := PI_RGT_0).
  assert (Hq : 0 < cf / ear_q + min_bw).
  { unfold ear_q, min_bw in *.
    replace (cf / 9.26449 + 24.7) with ((cf + 9.26449 * 24.7) / 9.26449) by (field; lra).
    apply Rdiv_lt_0_compat; lra. }
  simpl pow. rewrite !Rmult_1_r. nra.
Qed.

Lemma denominator_stable (t cf : R) :
  0 < t -> - (ear_q * min_bw) < cf ->
  0 < b2_coef t cf < 1
  /\ b1_coef t cf * b1_coef t cf <= 4 * b2_coef t cf.
Proof.
  intros Ht Hcf. assert (Hb := pole_b_pos Hcf). unfold b1_coef, b2_coef.
  assert (Hbt : 0 < pole_b cf * t) by nra.
  set (E := exp (pole_b cf * t)).
  assert (HE : 0 < E) by apply exp_pos.
  assert (H2 : exp (-2 * pole_b cf * t) = / E * / E).
  { replace (-2 * pole_b cf * t) with (- (pole_b cf * t) + - (pole_b cf * t)) by ring.
    rewrite exp_plus, exp_Ropp. reflexivity. }
  assert (Hlt : exp (-2 * pole_b cf * t) < 1).
  { rewrite <- exp_0. apply exp_increasing. nra. }
  split; [split; [apply exp_pos | exact Hlt]|].
  rewrite H2. set (c := cos (2 * cf * PI * t)).
  assert (Hc : -1 <= c <= 1) by apply COS_bound.
  assert (Hi : 0 < / E) by now apply Rinv_0_lt_compat.
  unfold Rdiv. replace (-2 * c * / E * (-2 * c * / E)) with (4 * (c * c) * (/ E * / E)) by ring.
  assert (Hcc : c * c <= 1) by nra.
  assert (Hii : 0 < / E * / E) by nra.
  nra.
Qed.

(** X10.  The constructor on valid arguments.  For a positive sampling
    rate, a lowest frequency strictly between zero and half the sampling
    rate and at least one channel, [ErbFilterBank.__init__] raises nothing:
    it builds a bank whose coefficient tensor has shape
    (num_channels, 3, 5), and in every channel the shared denominator
    [b0, b1, b2] (the last column) is that of a stable resonator:
    [b0 = 1], [0 < b2 < 1] and [b1^2 <= 4*b2], so both poles lie on the
    circle of radius [sqrt b2] inside the unit circle. *)
Theorem constructor_builds_stable_bank (sr low : R) (n : Z) :
  0 < sr -> 0 < low -> low < sr / 2 -> (1 <= n)%Z ->
  exists bank,
    ErbFilterBank_init sr (NumChannels n) low = Ok bank
    /\ num_channels bank = NumChannels n
    /\ length (sos bank) = Z.to_nat n
    /\ Forall (fun ch =>
                 length ch = 3%nat
                 /\ Forall (fun row => length row = 5%nat) ch
                 /\ nth 4 (nth 0 ch []) 0 = 1
                 /\ 0 < nth 4 (nth 2 ch []) 0 < 1
                 /\ nth 4 (nth 1 ch []) 0 * nth 4 (nth 1 ch []) 0
                    <= 4 * nth 4 (nth 2 ch []) 0)
              (sos bank).
Proof.
  intros Hsr Hlow Hhigh Hn. assert (Hc := erb_offset_pos).
  unfold ErbFilterBank_init.
  rewrite (Rleb_false Hsr), (Rleb_false Hlow), (Rleb_false Hhigh).
  cbn [orb raise_if bind]. unfold make_erb_filters.
  rewrite py_div_ok by lra. cbn [bind].
  rewrite erb_space_ok by (lia || lra). cbn [bind]. unfold designer_columns.
  rewrite (@prepare_coefficients_channels R Num_R _ _ _ _ _ _ _ _ _ _ (Z.to_nat n))
    by (repeat constructor; now rewrite !length_map, length_seq).
  cbn [bind]. eexists. split; [reflexivity|]. cbn [num_channels sos].
  split; [reflexivity|]. split; [now rewrite length_map, length_seq|].
  apply Forall_forall. intros ch Hch. apply in_map_iff in Hch.
  destruct Hch as (i & <- & Hi). apply in_seq in Hi.
  unfold channel_sos. cbn [nth length nzero Num_R].
  split; [reflexivity|]. split; [repeat constructor|].
  rewrite !map_map, !nth_map_seq by lia.
  split; [ring|].
  apply denominator_stable; [apply Rdiv_lt_0_compat; lra|].
  apply erb_point_above_offset. lra.
Qed.

Lemma constructor_witness :
  exists bank,
    ErbFilterBank_init 16000 (NumChannels 64) 100 = Ok bank
    /\ num_channels bank = NumChannels 64
    /\ length (sos bank) = Z.to_nat 64
    /\ Forall (fun ch =>
                 length ch = 3%nat
                 /\ Forall (fun row => length row = 5%nat) ch
                 /\ nth 4 (nth 0 ch []) 0 = 1
                 /\ 0 < nth 4 (nth 2 ch []) 0 < 1
                 /\ nth 4 (nth 1 ch []) 0 * nth 4 (nth 1 ch []) 0
                    <= 4 * nth 4 (nth 2 ch []) 0)
              (sos bank).
Proof.
  apply (@constructor_builds_stable_bank 16000 100 64); [lra | lra | lra | lia].
Defined.

(* ================================================================== *)
(** ** The ERB scale: equal spacing *)

Lemma erb_point_log (low_freq high_freq : R) (n : Z) (k : Z) :
  0 < high_freq + ear_q * min_bw ->
  ln (erb_point low_freq high_freq n (ln (high_freq + ear_q * min_bw))
                (ln (low_freq + ear_q * min_bw)) k + ear_q * min_bw)
  = ln (high_freq + ear_q * min_bw)
    - IZR k * ((ln (high_freq + ear_q * min_bw) - ln (low_freq + ear_q * min_bw)) / IZR n).
Proof.
  intros Hh. unfold erb_point.
  match goal with
  | |- ln (- ?c + ?e * ?h + ?c) = _ => replace (- c + e * h + c) with (e * h) by ring
  end.
  rewrite ln_mult by (apply exp_pos || exact Hh). rewrite ln_exp.
  unfold Rdiv. ring.
Qed.

(** X11.  Equal spacing on the ERB scale.  For [0 < low_freq < high_freq]
    and [n >= 1], the [n] frequencies of [erb_space] are equally spaced in
    [ln(f + ear_q*min_bw)]: entry [i] sits [i + 1] steps of
    [(ln(high_freq + ear_q*min_bw) - ln(low_freq + ear_q*min_bw)) / n] below
    [high_freq], any two neighbours are one step apart, and the last
    entry is [low_freq] itself. *)
Theorem erb_space_equally_spaced (low_freq high_freq : R) (n : Z) :
  0 < low_freq -> low_freq < high_freq -> (1 <= n)%Z ->
  exists cf,
    erb_space low_freq high_freq n = Ok cf
    /\ length cf = Z.to_nat n
    /\ nth (Z.to_nat n - 1) cf 0 = low_freq
    /\ let step := (ln (high_freq + ear_q * min_bw) - ln (low_freq + ear_q * min_bw))
                   / IZR n in
       0 < step
       /\ (forall i, (i < Z.to_nat n)%nat ->
             ln (nth i cf 0 + ear_q * min_bw)
             = ln (high_freq + ear_q * min_bw) - INR (i + 1) * step)
       /\ (forall i, (i + 1 < Z.to_nat n)%nat ->
             ln (nth i cf 0 + ear_q * min_bw) - ln (nth (i + 1) cf 0 + ear_q * min_bw)
             = step).
Proof.
  intros Hl Hh Hn. assert (Hc := erb_offset_pos).
  eexists. split; [apply erb_space_ok; [lia | lra | lra]|].
  split; [now rewrite length_map, length_seq|].
  split.
  { rewrite nth_map_seq by lia.
    replace (1 + Z.of_nat (Z.to_nat n - 1))%Z with n by lia.
    apply erb_point_last; assumption. }
  cbv zeta.
  assert (Hclosed : forall i, (i < Z.to_nat n)%nat ->
            ln (nth i (map (fun i => erb_point low_freq high_freq n
                     (ln (high_freq + ear_q * min_bw)) (ln (low_freq + ear_q * min_bw))
                     (1 + Z.of_nat i)%Z) (seq 0 (Z.to_nat n))) 0 + ear_q * min_bw)
            = ln (high_freq + ear_q * min_bw)
              - INR (i + 1)
                * ((ln (high_freq + ear_q * min_bw) - ln (low_freq + ear_q * min_bw))
                   / IZR n)).
  { intros i Hi. rewrite nth_map_seq by exact Hi.
    rewrite erb_point_log by lra.
    rewrite INR_IZR_INZ. do 3 f_equal. lia. }
  split; [|split; [exact Hclosed|]].
  - apply Rdiv_lt_0_compat; [|apply IZR_lt; lia].
    assert (Hln : ln (low_freq + ear_q * min_bw) < ln (high_freq + ear_q * min_bw))
      by (apply ln_increasing; lra).
    lra.
  - intros i Hi. rewrite !Hclosed by lia.
    rewrite (plus_INR (i + 1) 1). simpl INR. ring.
Qed.

Lemma erb_spacing_witness :
  exists cf,
    erb_space 100 8000 64 = Ok cf
    /\ length cf = Z.to_nat 64
    /\ nth (Z.to_nat 64 - 1) cf 0 = 100
    /\ let step := (ln (8000 + ear_q * min_bw) - ln (100 + ear_q * min_bw)) / IZR 64 in
       0 < step
       /\ (forall i, (i < Z.to_nat 64)%nat ->
             ln (nth i cf 0 + ear_q * min_bw)
             = ln (8000 + ear_q * min_bw) - INR (i + 1) * step)
       /\ (forall i, (i + 1 < Z.to_nat 64)%nat ->
             ln (nth i cf 0 + ear_q * min_bw) - ln (nth (i + 1) cf 0 + ear_q * min_bw)
             = step).
Proof.
  apply (@erb_space_equally_spaced 100 8000 64); [lra | lra | lia].
Defined.

(* ================================================================== *)
(** ** The pitch extractor: what a returned result needs *)

Open Scope Q_scope.

Lemma first_valley_needs_18_lags (width : Z) (summary : list Q) (valley : nat) :
  first_valley width summary = Ok valley ->
  (0 <= width)%Z ->
  (18 <= width)%Z /\ (18 <= length summary)%nat.
Proof.
  intros Hv Hw. assert (H16 := first_valley_at_least_16 _ _ Hv).
  unfold first_valley, lfilter in Hv.
  cbn [length repeat window_length Nat.sub Nat.eqb negb raise_if bind] in Hv.
  set (sumfilt := lfilter_channel _ _ _) in Hv.
  assert (Hsf : length sumfilt = length summary)
    by (unfold sumfilt; now rewrite lfilter_channel_length).
  unfold tensor_sub in Hv. rewrite !py_slice_length, Hsf in Hv.
  set (lu := slice_len (length summary) (Some 1%Z) (Some width)) in Hv.
  set (lv := slice_len (length summary) None (Some (width - 1)%Z)) in Hv.
  assert (Hlu : (lu = Nat.min (Z.to_nat width) (length summary) - 1)%nat).
  { unfold lu, slice_len, slice_range.
    rewrite !slice_bound_nonneg by lia. lia. }
  assert (Hlv : (lv <= length summary)%nat /\ (Z.of_nat lv <= Z.max (width - 1) 1)%Z
                \/ width = 0%Z).
  { destruct (Z.eq_dec width 0) as [-> | Hne]; [now right | left].
    unfold lv, slice_len, slice_range.
    rewrite !slice_bound_nonneg by lia. lia. }
  destruct (broadcast_len lu lv) as [m|e] eqn:Eb; [|discriminate]. cbn [bind] in Hv.
  apply py_index_0 in Hv. destruct Hv as (rest & Hv).
  unfold argwhere_positive in Hv. apply argwhere_from_head in Hv.
  destruct Hv as (_ & Hlen & _). rewrite Nat.sub_0_r, slice_fill_length in Hlen.
  clear Eb. revert Hlen.
  destruct (lu =? lv)%nat eqn:E1; [|destruct (lu =? 1)%nat eqn:E2]; intros Hlen.
  - apply Nat.eqb_eq in E1.
    rewrite length_map, length_combine, !py_slice_length, Hsf in Hlen.
    fold lu lv in Hlen. lia.
  - apply Nat.eqb_eq in E2.
    rewrite length_map, py_slice_length, Hsf in Hlen. fold lv in Hlen.
    destruct Hlv as [Hlv | ->]; lia.
  - rewrite length_map, py_slice_length, Hsf in Hlen. fold lu in Hlen. lia.
Qed.

Lemma mapM_length (A B : Type) (f : A -> result B) (l : list A) (bs : list B) :
  mapM f l = Ok bs -> length bs = length l.
Proof. intros Hm. exact (Forall2_length_eq (mapM_Forall2 _ _ Hm)). Qed.

(** X8.  What a returned result needs.  When [correlogram_pitch] returns,
    it returns one pitch and one salience per frame; and for a movie with
    at least one frame and a non-negative [width], it can only return when
    both [width] and the number of lags per channel are at least 18: the
    valley search reads the first difference of the smoothed summary past
    its first 16 entries. *)
Theorem pitch_result_shape
        (num_times : nat) (frames : list (list (list Q))) (width : Z)
        (sr low_pitch high_pitch : Q) (pitch salience : list Q) :
  correlogram_pitch num_times frames width sr low_pitch high_pitch
  = Ok (pitch, salience) ->
  length pitch = length frames
  /\ length salience = length frames
  /\ (frames <> [] -> (0 <= width)%Z -> (18 <= width)%Z /\ (18 <= num_times)%nat).
Proof.
  intros Hrun. unfold correlogram_pitch in Hrun.
  destruct (Qeq_bool high_pitch 0); [discriminate|]. cbn [raise_if bind] in Hrun.
  match type of Hrun with
  | bind (mapM ?f ?l) _ = _ => destruct (mapM f l) as [est|e] eqn:Hm
  end; [|discriminate].
  cbn [bind] in Hrun. injection Hrun as <- <-.
  rewrite !length_map, (mapM_length _ _ Hm).
  split; [reflexivity|]. split; [reflexivity|].
  intros Hne Hw. destruct frames as [|frame frames]; [contradiction|].
  apply mapM_Forall2 in Hm. inversion Hm as [|? [pj sj] ? ? Hf _]; subst.
  unfold pitch_frame in Hf.
  destruct (py_index (channel_sum num_times frame) 0); [|discriminate].
  cbn [bind] in Hf.
  destruct (first_valley width (channel_sum num_times frame)) as [valley|e] eqn:Hv;
    [|discriminate].
  apply first_valley_needs_18_lags in Hv; [|exact Hw].
  unfold channel_sum in Hv. rewrite length_map, length_seq in Hv. exact Hv.
Qed.

Lemma pitch_result_shape_witness :
  length [16000 # 20] = length peaked_movie
  /\ length [4 # 5] = length peaked_movie
  /\ (peaked_movie <> [] -> (0 <= 32)%Z -> (18 <= 32)%Z /\ (18 <= 32)%nat).
Proof.
  apply (@pitch_result_shape 32 peaked_movie 32 16000 100 2000 [16000 # 20] [4 # 5]).
  vm_compute. reflexivity.
Defined.

Close Scope Q_scope.

(* ================================================================== *)
(** ** The vibrato impulse train: [fm_points] *)







(* ================================================================== *)
(** ** The formant filter *)

Lemma py_sqrt_ok (x : R) : 0 <= x -> py_sqrt x = Ok (sqrt x).
Proof. intros Hx. unfold py_sqrt. destruct (Rlt_dec x 0); [lra | reflexivity]. Qed.


Lemma formant_radicand (f bw : R) :
  f <> 0 -> bw <> 0 ->
  1 - 1 / (4 * (f / bw) * (f / bw)) = (4 * (f * f) - bw * bw) / (4 * (f * f)).
Proof. intros Hf Hbw. field. split; assumption. Qed.

Lemma Rdiv_nonneg (a b : R) : 0 <= a -> 0 < b -> 0 <= a / b.
Proof.
  intros Ha Hb. unfold Rdiv. apply Rmult_le_pos; [exact Ha|].
  left. now apply Rinv_0_lt_compat.
Qed.

Lemma square_pos (x : R) : x <> 0 -> 0 < x * x.
Proof. intros Hx. destruct (Rtotal_order x 0) as [H | [H | H]]; [nra | contradiction | nra]. Qed.



(** X14.  The formant filter as a resonator.  For a positive sampling rate
    and bandwidth and a formant frequency of at least half the bandwidth,
    [formant_filter] runs the biquad difference equation with denominator
    [1, a2, a3] and the single numerator tap [1 + a2 + a3] (unit gain at
    zero frequency), where [a3 = exp(-2*pi*bw/sample_rate)] depends on the
    bandwidth only, [0 < a3 < 1] and [a2^2 <= 4*a3]: two poles on the
    circle of radius [exp(-pi*bw/sample_rate)], inside the unit circle. *)
Theorem formant_filter_resonator (f sample_rate bw : R) (x : list R) :
  0 < sample_rate -> 0 < bw -> bw <= 2 * f ->
  exists a2 a3,
    formant_filter f sample_rate x bw = Ok (biquad (1 + a2 + a3, 0, 0) (1, a2, a3) x)
    /\ a3 = exp (-2 * PI * bw / sample_rate)
    /\ 0 < a3 < 1
    /\ a2 * a2 <= 4 * a3.
Proof.
  intros Hsr Hbw Hfb.
  assert (Hf : f <> 0) by lra.
  assert (Hq : f / bw <> 0).
  { unfold Rdiv. apply Rmult_integral_contrapositive_currified;
      [exact Hf | apply Rinv_neq_0_compat; lra]. }
  assert (Hqq : 4 * (f / bw) * (f / bw) <> 0).
  { assert (H := square_pos Hq). lra. }
  assert (Hff := square_pos Hf).
  unfold formant_filter, formant_coefficients.
  rewrite !py_div_ok by lra. cbn [bind].
  rewrite (py_div_ok _ Hq). cbn [bind].
  rewrite (py_div_ok _ Hqq). cbn [bind].
  rewrite formant_radicand by lra.
  rewrite py_sqrt_ok by (apply Rdiv_nonneg; nra).
  cbn [bind fst snd]. unfold lfilter. cbn [length Nat.eqb negb raise_if bind].
  rewrite (@lfilter_channel_biquad R Num_R).
  replace (- PI * (f / sample_rate) / (f / bw)) with (- (PI * bw / sample_rate))
    by (field; repeat split; lra).
  set (rho := exp (- (PI * bw / sample_rate))).
  set (theta := 2 * PI * (f / sample_rate)
                * sqrt ((4 * (f * f) - bw * bw) / (4 * (f * f)))).
  exists (-2 * rho * cos theta), (rho * rho). split; [reflexivity|].
  assert (Hpi := PI_RGT_0).
  assert (He : 0 < PI * bw / sample_rate) by (apply Rdiv_lt_0_compat; nra).
  assert (Hrho : 0 < rho < 1).
  { split; [apply exp_pos|]. unfold rho. rewrite <- exp_0. apply exp_increasing. lra. }
  split.
  { unfold rho. rewrite <- exp_plus. f_equal. field. lra. }
  split; [nra|].
  assert (Hc := COS_bound theta).
  replace (-2 * rho * cos theta * (-2 * rho * cos theta))
    with (4 * (rho * rho) * (cos theta * cos theta)) by ring.
  assert (Hcc : cos theta * cos theta <= 1) by nra.
  assert (Hrr : 0 < rho * rho) by nra.
  nra.
Qed.

Lemma formant_resonator_witness :
  exists a2 a3,
    formant_filter 730 16000 [1; 0; 0] 50
    = Ok (biquad (1 + a2 + a3, 0, 0) (1, a2, a3) [1; 0; 0])
    /\ a3 = exp (-2 * PI * 50 / 16000)
    /\ 0 < a3 < 1
    /\ a2 * a2 <= 4 * a3.
Proof.
  apply (@formant_filter_resonator 730 16000 50 [1; 0; 0]); lra.
Defined.

(* ================================================================== *)
(** ** The glottal filter *)







(* ================================================================== *)
(** ** The assembler: what a returned tensor implies *)

Section AssemblerShape.
Context {A : Type} `{Num A}.

Lemma same_lengths_spec (n : nat) (cols : list (list A)) :
  same_lengths n cols = true <-> Forall (fun c => length c = n) cols.
Proof.
  unfold same_lengths. rewrite forallb_forall, Forall_forall.
  split; intros Hc c Hin; [apply Nat.eqb_eq | apply Nat.eqb_eq]; now apply Hc.
Qed.

Lemma cat_columns_ok (c : list A) (cols : list (list A)) (r : list (list A)) :
  cat_columns (c :: cols) = Ok r ->
  Forall (fun c' => length c' = length c) cols
  /\ length r = length c
  /\ Forall (fun row => length row = S (length cols)) r.
Proof.
  unfold cat_columns. destruct (same_lengths (length c) (c :: cols)) eqn:Es; [|discriminate].
  intros Hr. injection Hr as <-. apply same_lengths_spec in Es.
  inversion Es; subst. split; [assumption|].
  split; [rewrite length_map; apply length_seq|].
  apply Forall_forall. intros row Hrow. apply in_map_iff in Hrow.
  destruct Hrow as (i & <- & _). cbn [length]. now rewrite length_map.
Qed.

Lemma sos_row_ok (u v1 v2 v3 w gain : list A) (r : list (list A)) :
  sos_row u v1 v2 v3 w gain = Ok r ->
  length v1 = length r /\ length v2 = length r /\ length v3 = length r
  /\ length w = length r
  /\ Forall (fun row => length row = 5%nat) r.
Proof.
  unfold sos_row. destruct (column_div u gain) as [g|e]; [|discriminate].
  cbn [bind]. intros Hr. apply cat_columns_ok in Hr.
  destruct Hr as (Hcols & Hlen & Hrows).
  inversion Hcols as [|? ? E1 Hc1]; subst. inversion Hc1 as [|? ? E2 Hc2]; subst.
  inversion Hc2 as [|? ? E3 Hc3]; subst. inversion Hc3 as [|? ? E4 _]; subst.
  repeat split; try congruence. exact Hrows.
Qed.

Lemma cat_unsqueezed_ok (r0 r1 r2 : list (list A)) (sos : list (list (list A))) :
  cat_unsqueezed [r0; r1; r2] = Ok sos ->
  length r1 = length r0 /\ length r2 = length r0 /\ length sos = length r0
  /\ forall ch, In ch sos ->
       exists i, (i < length r0)%nat /\ ch = [nth i r0 []; nth i r1 []; nth i r2 []].
Proof.
  unfold cat_unsqueezed. cbn [forallb].
  rewrite Nat.eqb_refl, andb_true_r. cbn [andb].
  destruct (length r1 =? length r0)%nat eqn:E1; [|discriminate].
  destruct (length r2 =? length r0)%nat eqn:E2; [|discriminate].
  apply Nat.eqb_eq in E1, E2. intros Hs. injection Hs as <-.
  repeat split; try assumption; [now rewrite length_map, length_seq|].
  intros ch Hch. apply in_map_iff in Hch. destruct Hch as (i & <- & Hi).
  apply in_seq in Hi. exists i. split; [lia | reflexivity].
Qed.

(** X16.  What a returned tensor implies.  Whenever
    [prepare_coefficients] returns, its argument held ten columns that all
    have the same number of channels (the two columns [a2] and [b2] that
    no [assert] looks at included: a mismatch there is rejected by the
    concatenations), and the result has shape (channels, 3, 5). *)
Theorem assembled_tensor_shape (fcoefs : list (list A)) (sos : list (list (list A))) :
  prepare_coefficients fcoefs = Ok sos ->
  length fcoefs = 10%nat
  /\ Forall (fun c => length c = length sos) fcoefs
  /\ Forall (fun ch => length ch = 3%nat /\ Forall (fun row => length row = 5%nat) ch) sos.
Proof.
  intros Hrun. unfold prepare_coefficients in Hrun.
  destruct fcoefs as [|a0 [|a11 [|a12 [|a13 [|a14 [|a2 [|b0 [|b1 [|b2 [|gain [|? ?]]]]]]]]]]];
    try discriminate.
  unfold channel_count_asserts, py_assert in Hrun.
  destruct (length a0 =? length a11)%nat eqn:E1; [|discriminate].
  destruct (length a0 =? length a12)%nat eqn:E2; [|discriminate].
  destruct (length a0 =? length a13)%nat eqn:E3; [|discriminate].
  destruct (length a0 =? length a14)%nat eqn:E4; [|discriminate].
  destruct (length a0 =? length b0)%nat eqn:E5; [|discriminate].
  destruct (length a0 =? length b1)%nat eqn:E6; [|discriminate].
  destruct (length a0 =? length gain)%nat eqn:E7; [|discriminate].
  apply Nat.eqb_eq in E1, E2, E3, E4, E5, E6, E7. cbn [bind] in Hrun.
  destruct (sos_row a0 a0 a0 a0 b0 gain) as [r0|e] eqn:Hr0; [|discriminate].
  destruct (sos_row a11 a12 a13 a14 b1 gain) as [r1|e] eqn:Hr1; [|discriminate].
  destruct (sos_row a2 a2 a2 a2 b2 gain) as [r2|e] eqn:Hr2; [|discriminate].
  cbn [bind] in Hrun.
  apply sos_row_ok in Hr0, Hr1, Hr2.
  destruct Hr0 as (L0 & _ & _ & _ & R0). destruct Hr1 as (_ & _ & _ & _ & R1).
  destruct Hr2 as (L2 & _ & _ & L2' & R2).
  apply cat_unsqueezed_ok in Hrun. destruct Hrun as (C1 & C2 & Cs & Hch).
  split; [reflexivity|]. split.
  - repeat constructor; congruence.
  - apply Forall_forall. intros ch Hin. destruct (Hch ch Hin) as (i & Hi & ->).
    split; [reflexivity|].
    repeat constructor;
      match goal with
      | |- length (nth i ?r []) = 5%nat =>
          apply (proj1 (Forall_forall (fun row => length row = 5%nat) r));
          [assumption | apply nth_In; lia]
      end.
Qed.

End AssemblerShape.

Lemma assembled_shape_witness :
  length delay_columns = 10%nat
  /\ Forall (fun c => length c = length (sos delay_bank)) delay_columns
  /\ Forall (fun ch => length ch = 3%nat /\ Forall (fun row => length row = 5%nat) ch)
            (sos delay_bank).
Proof.
  apply (@assembled_tensor_shape Q Num_Q delay_columns (sos delay_bank)).
  reflexivity.
Defined.

(* ================================================================== *)
(** ** The filterbank executor: causality *)

Section Causality.
Context {A : Type} `{Num A}.

Lemma lfilter_loop_app (a b xs tl : list A) :
  forall xh yh, exists xh' yh',
    lfilter_loop a b (xs ++ tl) xh yh
    = lfilter_loop a b xs xh yh ++ lfilter_loop a b tl xh' yh'.
Proof.
  induction xs as [|x xs IH]; intros xh yh.
  - exists xh, yh. reflexivity.
  - cbn [app lfilter_loop].
    destruct (IH (x :: xh)
                 (ndiv (nsub (dot b (x :: xh)) (dot (List.tl a) yh)) (hd nzero a) :: yh))
      as (xh' & yh' & E).
    exists xh', yh'. cbn zeta. rewrite E. reflexivity.
Qed.

Lemma lfilter_prefix (a b w w' y y' : list A) :
  (exists rest, w' = w ++ rest) ->
  lfilter w a b = Ok y -> lfilter w' a b = Ok y' ->
  exists rest, y' = y ++ rest.
Proof.
  intros (rest & ->). unfold lfilter.
  destruct (negb (length a =? length b)%nat); [discriminate|].
  cbn [raise_if bind]. intros Hy Hy'. injection Hy as <-. injection Hy' as <-.
  unfold lfilter_channel.
  destruct (lfilter_loop_app a b w rest (repeat nzero (length a - 1))
                             (repeat nzero (length a - 1))) as (xh' & yh' & E).
  rewrite E. eexists. reflexivity.
Qed.

Lemma zip_filters_prefix (a_coeffs b_coeffs : list (list A)) :
  forall ws ws' ys ys',
    Forall2 (fun w w' => exists rest, w' = w ++ rest) ws ws' ->
    zip_filters ws a_coeffs b_coeffs = Ok ys ->
    zip_filters ws' a_coeffs b_coeffs = Ok ys' ->
    Forall2 (fun y y' => exists rest, y' = y ++ rest) ys ys'.
Proof.
  revert b_coeffs. induction a_coeffs as [|a a_coeffs IH]; intros b_coeffs ws ws' ys ys' Hw.
  - destruct Hw as [|w w' ws ws' _ _]; destruct b_coeffs; try discriminate.
    intros Hy Hy'. injection Hy as <-. injection Hy' as <-. constructor.
  - destruct Hw as [|w w' ws ws' Hw Hws]; [discriminate|].
    destruct b_coeffs as [|b b_coeffs]; [discriminate|].
    cbn [zip_filters].
    destruct (lfilter w a b) as [y|e] eqn:Ey; [|discriminate].
    destruct (lfilter w' a b) as [y'|e] eqn:Ey'; [|discriminate].
    cbn [bind].
    destruct (zip_filters ws a_coeffs b_coeffs) as [t|e] eqn:Et; [|discriminate].
    destruct (zip_filters ws' a_coeffs b_coeffs) as [t'|e] eqn:Et'; [|discriminate].
    cbn [bind]. intros Hy Hy'. injection Hy as <-. injection Hy' as <-.
    constructor; [eapply lfilter_prefix; eassumption | eapply IH; eassumption].
Qed.

Lemma lfilter_batching_prefix (a_coeffs b_coeffs : list (list A)) :
  forall waveform waveform' y y',
    Forall2 (Forall2 (fun w w' => exists rest, w' = w ++ rest)) waveform waveform' ->
    lfilter_batching waveform a_coeffs b_coeffs = Ok y ->
    lfilter_batching waveform' a_coeffs b_coeffs = Ok y' ->
    Forall2 (Forall2 (fun w w' => exists rest, w' = w ++ rest)) y y'.
Proof.
  unfold lfilter_batching. intros waveform waveform' y y' Hw. revert y y'.
  induction Hw as [|ws ws' waveform waveform' Hws _ IH]; intros y y'; cbn [mapM].
  - intros Hy Hy'. injection Hy as <-. injection Hy' as <-. constructor.
  - destruct (zip_filters ws a_coeffs b_coeffs) as [t|e] eqn:Et; [|discriminate].
    destruct (zip_filters ws' a_coeffs b_coeffs) as [t'|e] eqn:Et'; [|discriminate].
    cbn [bind].
    destruct (mapM _ waveform) as [u|e]; [|discriminate].
    destruct (mapM _ waveform') as [u'|e]; [|discriminate].
    cbn [bind]. intros Hy Hy'. injection Hy as <-. injection Hy' as <-.
    constructor; [eapply zip_filters_prefix; eassumption | now apply IH].
Qed.

Lemma forward_stage_prefix (sos : list (list (list A)))
      (r r' : result (list (list (list A)))) (j : Z) (y y' : list (list (list A))) :
  (forall w w', r = Ok w -> r' = Ok w' ->
                Forall2 (Forall2 (fun u u' => exists rest, u' = u ++ rest)) w w') ->
  forward_stage sos r j = Ok y -> forward_stage sos r' j = Ok y' ->
  Forall2 (Forall2 (fun u u' => exists rest, u' = u ++ rest)) y y'.
Proof.
  intros Hr. unfold forward_stage.
  destruct r as [w|e]; [|discriminate]. destruct r' as [w'|e]; [|discriminate].
  cbn [bind].
  destruct (last_axis sos (-1)) as [a|e]; [|discriminate].
  destruct (last_axis sos (j + 1)) as [b|e]; [|discriminate].
  cbn [bind]. apply lfilter_batching_prefix. now apply Hr.
Qed.

(** X17.  The filterbank is causal.  If every row of one input is the
    beginning of the matching row of a longer input, then whenever
    [forward] returns on both, every output row for the shorter input is
    the beginning of the matching output row for the longer one: samples
    that come later never change the output at earlier times. *)
Theorem forward_is_causal (self : ErbFilterBank A) (time time' : nat)
        (rows rows' : list (list A)) (y y' : list (list (list A))) :
  Forall2 (fun row row' => exists rest, row' = row ++ rest) rows rows' ->
  forward self (SignalN time rows) = Ok y ->
  forward self (SignalN time' rows') = Ok y' ->
  Forall2 (Forall2 (fun ch ch' => exists rest, ch' = ch ++ rest)) y y'.
Proof.
  intros Hrows. unfold forward.
  destruct (time <=? 1)%nat; [discriminate|].
  destruct (time' <=? 1)%nat; [discriminate|].
  cbn [raise_if bind].
  destruct (num_channels self) as [n|cf]; [|discriminate]. cbn [bind].
  unfold tile_channels. destruct (n <? 0)%Z; [discriminate|]. cbn [bind].
  destruct (last_axis (sos self) (-1)) as [a|e]; [|discriminate].
  destruct (last_axis (sos self) 0) as [b|e]; [|discriminate].
  cbn [bind]. change (py_range 3) with [0%Z; 1%Z; 2%Z]. cbn [fold_left].
  apply forward_stage_prefix. intros w2 w2'.
  apply forward_stage_prefix. intros w1 w1'.
  apply forward_stage_prefix. intros w0 w0'.
  apply lfilter_batching_prefix.
  clear - Hrows. generalize (Z.to_nat n). intros m.
  induction Hrows as [|row row' rows rows' Hrow _ IH]; cbn [map];
    constructor; [|exact IH].
  clear - Hrow. induction m as [|m IHm]; cbn [repeat]; constructor; assumption.
Qed.

End Causality.

Lemma forward_causal_witness :
  Forall2 (Forall2 (fun ch ch' : list Q => exists rest, ch' = ch ++ rest))
          [[[0; 0; 0; 0]]]%Q [[[0; 0; 0; 0; 0; 0; 0; 0; 1]]]%Q.
Proof.
  apply (@forward_is_causal Q Num_Q delay_bank 4 9 [[1; 0; 0; 0]%Q] [impulse9]).
  - repeat constructor. exists [0; 0; 0; 0; 0]%Q. reflexivity.
  - vm_compute. reflexivity.
  - vm_compute. reflexivity.
Defined.
